(** * HelloTriangleApplication: device selection and handle lifecycle

    A shallow embedding of the Vulkan bootstrap program (main.cpp): the
    queue family scan, the physical device selection, the logical device
    construction and the run / cleanup sequence, together with the
    properties of the design document that concern them.

    The member functions of [HelloTriangleApplication] read and write the
    members of the object, call into GLFW and Vulkan, and may throw
    [std::runtime_error].  They are embedded in a small monad that threads
    the object, records every API call in order, and carries the thrown
    exception.  The answers of GLFW and of the Vulkan driver are the fields
    of a [Driver]. *)

From Stdlib Require Import ZArith List Bool String Lia QArith.
Import ListNotations.
Local Open Scope string_scope.
Local Open Scope Z_scope.
Local Open Scope list_scope.

(* ================================================================= *)
(** ** API types and constants *)

(** Handles ([GLFWwindow*], [VkInstance], [VkPhysicalDevice], [VkDevice],
    [VkSurfaceKHR], [VkQueue]) are opaque machine words. *)
Definition Handle := Z.

Definition VK_NULL_HANDLE : Handle := 0.

(** [VK_QUEUE_GRAPHICS_BIT] of vulkan_core.h. *)
Definition VK_QUEUE_GRAPHICS_BIT : Z := 1.

Definition WIDTH : Z := 800.
Definition HEIGHT : Z := 600.

Definition EXIT_SUCCESS : Z := 0.
Definition EXIT_FAILURE : Z := 1.

(** The two fields of [VkQueueFamilyProperties] the program reads, both
    [uint32_t]. *)
Record VkQueueFamilyProperties : Type := mkQueueFamily {
  queueFlags : Z;
  queueCount : Z
}.

(** The fields of [VkDeviceQueueCreateInfo] the program fills in;
    [pQueuePriorities] points at the single float [queuePriority]. *)
Record VkDeviceQueueCreateInfo : Type := mkQueueCreateInfo {
  queueFamilyIndex : Z;
  dq_queueCount : Z;
  pQueuePriorities : Q
}.

(** Implicit conversion of an [int] to [uint32_t]. *)
Definition to_uint32 (z : Z) : Z := z mod 2 ^ 32.

(** The range of [int]. *)
Definition int_range (z : Z) : Prop := - 2 ^ 31 <= z < 2 ^ 31.

(* ================================================================= *)
(** ** QueueFamilyIndices *)

Record QueueFamilyIndices : Type := mkIndices {
  graphicsFamily : Z;
  presentFamily : Z
}.

(** The default member initialisers: both fields at the sentinel. *)
Definition QueueFamilyIndices_default : QueueFamilyIndices :=
  {| graphicsFamily := -1; presentFamily := -1 |}.

Definition isComplete (indices : QueueFamilyIndices) : bool :=
  (0 <=? graphicsFamily indices) && (0 <=? presentFamily indices).

Definition set_graphicsFamily (i : Z) (indices : QueueFamilyIndices) :=
  {| graphicsFamily := i; presentFamily := presentFamily indices |}.

Definition set_presentFamily (i : Z) (indices : QueueFamilyIndices) :=
  {| graphicsFamily := graphicsFamily indices; presentFamily := i |}.

(* ================================================================= *)
(** ** The application object *)

(** The private members.  Only [physicalDevice] has an initialiser; the
    others hold whatever the object was constructed over until they are
    assigned. *)
Record HelloTriangleApplication : Type := mkApp {
  window : Handle;
  instance : Handle;
  device : Handle;
  physicalDevice : Handle;
  graphicsQueue : Handle;
  surface : Handle;
  presentQueue : Handle
}.

(** Construction: [physicalDevice = VK_NULL_HANDLE], every other member
    keeps the indeterminate value [junk] has there. *)
Definition construct (junk : HelloTriangleApplication) : HelloTriangleApplication :=
  {| window := window junk; instance := instance junk; device := device junk;
     physicalDevice := VK_NULL_HANDLE;
     graphicsQueue := graphicsQueue junk; surface := surface junk;
     presentQueue := presentQueue junk |}.

Definition set_window (h : Handle) (a : HelloTriangleApplication) :=
  {| window := h; instance := instance a; device := device a;
     physicalDevice := physicalDevice a; graphicsQueue := graphicsQueue a;
     surface := surface a; presentQueue := presentQueue a |}.

Definition set_instance (h : Handle) (a : HelloTriangleApplication) :=
  {| window := window a; instance := h; device := device a;
     physicalDevice := physicalDevice a; graphicsQueue := graphicsQueue a;
     surface := surface a; presentQueue := presentQueue a |}.

Definition set_device (h : Handle) (a : HelloTriangleApplication) :=
  {| window := window a; instance := instance a; device := h;
     physicalDevice := physicalDevice a; graphicsQueue := graphicsQueue a;
     surface := surface a; presentQueue := presentQueue a |}.

Definition set_physicalDevice (h : Handle) (a : HelloTriangleApplication) :=
  {| window := window a; instance := instance a; device := device a;
     physicalDevice := h; graphicsQueue := graphicsQueue a;
     surface := surface a; presentQueue := presentQueue a |}.

Definition set_surface (h : Handle) (a : HelloTriangleApplication) :=
  {| window := window a; instance := instance a; device := device a;
     physicalDevice := physicalDevice a; graphicsQueue := graphicsQueue a;
     surface := h; presentQueue := presentQueue a |}.

Definition set_presentQueue (h : Handle) (a : HelloTriangleApplication) :=
  {| window := window a; instance := instance a; device := device a;
     physicalDevice := physicalDevice a; graphicsQueue := graphicsQueue a;
     surface := surface a; presentQueue := h |}.

(* ================================================================= *)
(** ** The outside world *)

Inductive WindowHint : Type :=
| GLFW_CLIENT_API_NO_API
| GLFW_RESIZABLE_FALSE.

(** One constructor per GLFW / Vulkan entry point the program calls, with
    the arguments it passes; a creating call also records what came back
    ([None]: a result other than [VK_SUCCESS]).  The [fill] flag of the two
    enumeration calls tells the counting call (null array) from the one
    that fills the array. *)
Inductive Call : Type :=
| glfwInit
| glfwWindowHint (hint : WindowHint)
| glfwCreateWindow (width height : Z) (title : string) (ret : Handle)
| glfwGetRequiredInstanceExtensions
| vkCreateInstance (extensions : list string) (ret : option Handle)
| glfwCreateWindowSurface (inst win : Handle) (ret : option Handle)
| vkEnumeratePhysicalDevices (inst : Handle) (fill : bool)
| vkGetPhysicalDeviceQueueFamilyProperties (dev : Handle) (fill : bool)
| vkGetPhysicalDeviceSurfaceSupportKHR (dev : Handle) (i : Z) (surf : Handle)
| vkCreateDevice (phys : Handle) (infos : list VkDeviceQueueCreateInfo)
                 (ret : option Handle)
| vkGetDeviceQueue (dev : Handle) (family index : Z)
| glfwWindowShouldClose (win : Handle)
| glfwPollEvents
| vkDestroyDevice (dev : Handle)
| vkDestroySurfaceKHR (inst surf : Handle)
| vkDestroyInstance (inst : Handle)
| glfwDestroyWindow (win : Handle)
| glfwTerminate.

(** What GLFW and the Vulkan driver answer.  [windowShouldClose w n] is the
    answer to the [n]-th call (counting from 0) of [glfwWindowShouldClose]
    on [w]. *)
Record Driver : Type := mkDriver {
  createWindow : Z -> Z -> string -> Handle;
  requiredInstanceExtensions : list string;
  createInstanceResult : list string -> option Handle;
  createWindowSurfaceResult : Handle -> Handle -> option Handle;
  physicalDevices : Handle -> list Handle;
  queueFamilyProperties : Handle -> list VkQueueFamilyProperties;
  surfaceSupport : Handle -> Z -> Handle -> bool;
  createDeviceResult : Handle -> list VkDeviceQueueCreateInfo -> option Handle;
  deviceQueue : Handle -> Z -> Z -> Handle;
  windowShouldClose : Handle -> nat -> bool
}.

(* ================================================================= *)
(** ** The monad of member functions *)

Inductive runtime_error : Type :=
| RuntimeError (what : string).

Definition what (e : runtime_error) : string :=
  match e with RuntimeError w => w end.

(** How a member function ends: it returns, it throws, or (the event loop
    only) it is still running when the fuel is spent. *)
Inductive outcome (A : Type) : Type :=
| Ret (a : A)
| Throw (e : runtime_error)
| Running.

Arguments Ret {A} a.
Arguments Throw {A} e.
Arguments Running {A}.

Record result (A : Type) : Type := mkResult {
  out : outcome A;
  app : HelloTriangleApplication;
  calls : list Call
}.

Arguments mkResult {A} out app calls.
Arguments out {A} r.
Arguments app {A} r.
Arguments calls {A} r.

Definition M (A : Type) : Type := HelloTriangleApplication -> result A.

Definition ret {A} (a : A) : M A := fun s => mkResult (Ret a) s [].

Definition throw {A} (msg : string) : M A :=
  fun s => mkResult (Throw (RuntimeError msg)) s [].

Definition bind {A B} (m : M A) (k : A -> M B) : M B :=
  fun s =>
    let r := m s in
    match out r with
    | Ret a =>
        let r' := k a (app r) in
        mkResult (out r') (app r') (calls r ++ calls r')
    | Throw e => mkResult (Throw e) (app r) (calls r)
    | Running => mkResult Running (app r) (calls r)
    end.

Definition emit (c : Call) : M unit := fun s => mkResult (Ret tt) s [c].

Definition member {A} (f : HelloTriangleApplication -> A) : M A :=
  fun s => mkResult (Ret (f s)) s [].

Definition assign (f : HelloTriangleApplication -> HelloTriangleApplication)
  : M unit :=
  fun s => mkResult (Ret tt) (f s) [].

Declare Scope app_scope.
Delimit Scope app_scope with app.
Notation "x <- m ;; k" := (bind m (fun x => k))
  (at level 61, m at next level, right associativity) : app_scope.
Notation "m ;; k" := (bind m (fun _ => k))
  (at level 61, right associativity) : app_scope.
Local Open Scope app_scope.

(* ================================================================= *)
(** ** The member functions *)

Section Application.

Variable drv : Driver.

(** The two tests of the scan body. *)
Definition graphicsCapable (queueFamily : VkQueueFamilyProperties) : bool :=
  (0 <? queueCount queueFamily)
  && negb (Z.land (queueFlags queueFamily) VK_QUEUE_GRAPHICS_BIT =? 0).

Definition presentCapable (queueFamily : VkQueueFamilyProperties)
  (presentSupport : bool) : bool :=
  (0 <? queueCount queueFamily) && presentSupport.

(** The range-for of [findQueueFamilies], entered with the counter [i] and
    the indices found so far. *)
Fixpoint findQueueFamilies_loop (dev : Handle)
  (queueFamilies : list VkQueueFamilyProperties) (i : Z)
  (indices : QueueFamilyIndices) : M QueueFamilyIndices :=
  match queueFamilies with
  | [] => ret indices
  | queueFamily :: rest =>
      let indices :=
        if graphicsCapable queueFamily then set_graphicsFamily i indices
        else indices in
      surf <- member surface ;;
      emit (vkGetPhysicalDeviceSurfaceSupportKHR dev i surf) ;;
      let presentSupport := surfaceSupport drv dev i surf in
      let indices :=
        if presentCapable queueFamily presentSupport
        then set_presentFamily i indices
        else indices in
      if isComplete indices then ret indices
      else findQueueFamilies_loop dev rest (i + 1) indices
  end.

(** The second query is handed [queueFamilies.data()], which is null when
    the vector is empty: for an adapter without families it is one more
    counting call. *)
Definition findQueueFamilies (dev : Handle) : M QueueFamilyIndices :=
  emit (vkGetPhysicalDeviceQueueFamilyProperties dev false) ;;
  let queueFamilies := queueFamilyProperties drv dev in
  let queueFamilyCount := Z.of_nat (List.length queueFamilies) in
  emit (vkGetPhysicalDeviceQueueFamilyProperties dev
          (negb (queueFamilyCount =? 0))) ;;
  findQueueFamilies_loop dev queueFamilies 0 QueueFamilyIndices_default.

Definition isDeviceSuitable (dev : Handle) : M bool :=
  indices <- findQueueFamilies dev ;;
  ret (isComplete indices).

(** The range-for of [pickPhysicalDevice]: the first suitable device is
    stored and the loop is left. *)
Fixpoint pickPhysicalDevice_loop (devices : list Handle) : M unit :=
  match devices with
  | [] => ret tt
  | dev :: rest =>
      suitable <- isDeviceSuitable dev ;;
      if (suitable : bool) then assign (set_physicalDevice dev)
      else pickPhysicalDevice_loop rest
  end.

Definition pickPhysicalDevice : M unit :=
  inst <- member instance ;;
  emit (vkEnumeratePhysicalDevices inst false) ;;
  let devices := physicalDevices drv inst in
  let deviceCount := Z.of_nat (List.length devices) in
  if deviceCount =? 0 then throw "failed to find GPUs with Vulkan support!"
  else
    emit (vkEnumeratePhysicalDevices inst true) ;;
    pickPhysicalDevice_loop devices ;;
    phys <- member physicalDevice ;;
    if phys =? VK_NULL_HANDLE then throw "failed to find a suitable GPU!"
    else ret tt.

(** [std::set<int>]: the elements in ascending order, each once. *)
Fixpoint set_insert (x : Z) (s : list Z) : list Z :=
  match s with
  | [] => [x]
  | y :: rest =>
      if x <? y then x :: s
      else if x =? y then s
      else y :: set_insert x rest
  end.

(** Construction from an initializer list. *)
Definition std_set (init : list Z) : list Z :=
  fold_left (fun s x => set_insert x s) init [].

(** The range-for of [createLogicalDevice] over [uniqueQueueFamilies]:
    one [push_back] per element. *)
Fixpoint queueCreateInfos_loop (queuePriority : Q) (families : list Z)
  (queueCreateInfos : list VkDeviceQueueCreateInfo)
  : list VkDeviceQueueCreateInfo :=
  match families with
  | [] => queueCreateInfos
  | queueFamily :: rest =>
      let queueCreateInfo :=
        {| queueFamilyIndex := to_uint32 queueFamily;
           dq_queueCount := 1;
           pQueuePriorities := queuePriority |} in
      queueCreateInfos_loop queuePriority rest
        (queueCreateInfos ++ [queueCreateInfo])
  end.

Definition createLogicalDevice : M unit :=
  phys <- member physicalDevice ;;
  indices <- findQueueFamilies phys ;;
  let uniqueQueueFamilies :=
    std_set [graphicsFamily indices; presentFamily indices] in
  let queuePriority := 1%Q in
  let queueCreateInfos :=
    queueCreateInfos_loop queuePriority uniqueQueueFamilies [] in
  phys <- member physicalDevice ;;
  let created := createDeviceResult drv phys queueCreateInfos in
  emit (vkCreateDevice phys queueCreateInfos created) ;;
  match created with
  | Some h => assign (set_device h)
  | None => throw "failed to create logical device!"
  end ;;
  dev <- member device ;;
  let family := to_uint32 (presentFamily indices) in
  emit (vkGetDeviceQueue dev family 0) ;;
  assign (set_presentQueue (deviceQueue drv dev family 0)).

Definition createInstance : M unit :=
  emit glfwGetRequiredInstanceExtensions ;;
  let glfwExtensions := requiredInstanceExtensions drv in
  let created := createInstanceResult drv glfwExtensions in
  emit (vkCreateInstance glfwExtensions created) ;;
  match created with
  | Some h => assign (set_instance h)
  | None => throw "failed to create instance!"
  end.

Definition initWindow : M unit :=
  emit glfwInit ;;
  emit (glfwWindowHint GLFW_CLIENT_API_NO_API) ;;
  emit (glfwWindowHint GLFW_RESIZABLE_FALSE) ;;
  let created := createWindow drv WIDTH HEIGHT "Vulkan" in
  emit (glfwCreateWindow WIDTH HEIGHT "Vulkan" created) ;;
  assign (set_window created).

Definition createSurface : M unit :=
  inst <- member instance ;;
  win <- member window ;;
  let created := createWindowSurfaceResult drv inst win in
  emit (glfwCreateWindowSurface inst win created) ;;
  match created with
  | Some h => assign (set_surface h)
  | None => throw "failed to create window surface!"
  end.

Definition initVulkan : M unit :=
  createInstance ;;
  createSurface ;;
  pickPhysicalDevice ;;
  createLogicalDevice.

(** The while loop of [mainLoop], about to make call number [n] of
    [glfwWindowShouldClose]. *)
Fixpoint mainLoop_from (fuel : nat) (n : nat) : M unit :=
  match fuel with
  | O => fun s => mkResult Running s []
  | S fuel' =>
      win <- member window ;;
      emit (glfwWindowShouldClose win) ;;
      if windowShouldClose drv win n then ret tt
      else emit glfwPollEvents ;; mainLoop_from fuel' (S n)
  end.

Definition mainLoop (fuel : nat) : M unit := mainLoop_from fuel O.

Definition cleanup : M unit :=
  dev <- member device ;;
  emit (vkDestroyDevice dev) ;;
  inst <- member instance ;;
  surf <- member surface ;;
  emit (vkDestroySurfaceKHR inst surf) ;;
  inst <- member instance ;;
  emit (vkDestroyInstance inst) ;;
  win <- member window ;;
  emit (glfwDestroyWindow win) ;;
  emit glfwTerminate.

Definition run (fuel : nat) : M unit :=
  initWindow ;;
  initVulkan ;;
  mainLoop fuel ;;
  cleanup.

(** What the process leaves behind: its exit status ([None] while the
    event loop is still turning), the lines written to [std::cerr] and the
    API calls made. *)
Record Process : Type := mkProcess {
  exit_status : option Z;
  cerr : list string;
  api_calls : list Call
}.

Definition main (fuel : nat) (junk : HelloTriangleApplication) : Process :=
  let r := run fuel (construct junk) in
  match out r with
  | Ret _ => mkProcess (Some EXIT_SUCCESS) [] (calls r)
  | Throw e => mkProcess (Some EXIT_FAILURE) [what e] (calls r)
  | Running => mkProcess None [] (calls r)
  end.

End Application.

(* ================================================================= *)
(** ** Observations on a call trace *)

(** The handles the program owns. *)
Inductive Resource : Type :=
| WindowHandle (h : Handle)
| InstanceHandle (h : Handle)
| SurfaceHandle (h : Handle)
| DeviceHandle (h : Handle).

(** What a creating call hands back.  A Vulkan creation that does not
    succeed hands back nothing.  The pointer [glfwCreateWindow] returns is
    stored and used by the program without a test, so it is recorded as it
    is; it is a window when it is not null, which the properties that read
    it as one assume. *)
Definition acquired_by (c : Call) : option Resource :=
  match c with
  | glfwCreateWindow _ _ _ h => Some (WindowHandle h)
  | vkCreateInstance _ (Some h) => Some (InstanceHandle h)
  | glfwCreateWindowSurface _ _ (Some h) => Some (SurfaceHandle h)
  | vkCreateDevice _ _ (Some h) => Some (DeviceHandle h)
  | _ => None
  end.

Definition released_by (c : Call) : option Resource :=
  match c with
  | vkDestroyDevice h => Some (DeviceHandle h)
  | vkDestroySurfaceKHR _ h => Some (SurfaceHandle h)
  | vkDestroyInstance h => Some (InstanceHandle h)
  | glfwDestroyWindow h => Some (WindowHandle h)
  | _ => None
  end.

Definition collect {A B} (f : A -> option B) (l : list A) : list B :=
  flat_map (fun a => match f a with Some b => [b] | None => [] end) l.

(** Handles in the order they were acquired, resp. destroyed. *)
Definition acquisitions (t : list Call) : list Resource := collect acquired_by t.
Definition releases (t : list Call) : list Resource := collect released_by t.

(** The adapter of every [vkGetPhysicalDeviceQueueFamilyProperties] call,
    in order, whatever array the call was given. *)
Definition family_queries (t : list Call) : list Handle :=
  collect (fun c => match c with
                    | vkGetPhysicalDeviceQueueFamilyProperties d _ => Some d
                    | _ => None
                    end) t.

(** [findQueueFamilies] asks twice per adapter: [twice l] is what examining
    the adapters [l] one after the other leaves in [family_queries]. *)
Definition twice (l : list Handle) : list Handle :=
  flat_map (fun d => [d; d]) l.

(** The family indices whose present support was queried, in order. *)
Definition examined_families (t : list Call) : list Z :=
  collect (fun c => match c with
                    | vkGetPhysicalDeviceSurfaceSupportKHR _ i _ => Some i
                    | _ => None
                    end) t.

(** The queue creation requests handed to [vkCreateDevice]. *)
Definition queue_requests (t : list Call) : list (list VkDeviceQueueCreateInfo) :=
  collect (fun c => match c with
                    | vkCreateDevice _ infos _ => Some infos
                    | _ => None
                    end) t.

(** The (family, index) pairs asked of [vkGetDeviceQueue]. *)
Definition queues_retrieved (t : list Call) : list (Z * Z) :=
  collect (fun c => match c with
                    | vkGetDeviceQueue _ family index => Some (family, index)
                    | _ => None
                    end) t.

(* ================================================================= *)
(** ** The scan of [findQueueFamilies], without the monad *)

(** [Zseq i n] is [i; i+1; ...; i+n-1]. *)
Fixpoint Zseq (i : Z) (n : nat) : list Z :=
  match n with
  | O => []
  | S n' => i :: Zseq (i + 1) n'
  end.

Section Scan.

Variable support : Z -> bool.

(** One turn of the loop body, up to the completeness test. *)
Definition scan_step (i : Z) (queueFamily : VkQueueFamilyProperties)
  (indices : QueueFamilyIndices) : QueueFamilyIndices :=
  let indices :=
    if graphicsCapable queueFamily then set_graphicsFamily i indices
    else indices in
  if presentCapable queueFamily (support i) then set_presentFamily i indices
  else indices.

(** The indices the loop ends with and the number of families it looked
    at. *)
Fixpoint scan (queueFamilies : list VkQueueFamilyProperties) (i : Z)
  (indices : QueueFamilyIndices) : QueueFamilyIndices * nat :=
  match queueFamilies with
  | [] => (indices, O)
  | queueFamily :: rest =>
      let indices := scan_step i queueFamily indices in
      if isComplete indices then (indices, 1%nat)
      else let (r, n) := scan rest (i + 1) indices in (r, S n)
  end.

End Scan.

(** [Gz j] / [Pz j] say whether the family at index [j] passes the graphics
    test, resp. the present test; [scan_agrees] ties them to a list whose
    head has index [i]. *)
Definition scan_agrees (support Gz Pz : Z -> bool)
  (l : list VkQueueFamilyProperties) (i : Z) : Prop :=
  forall k qf, nth_error l k = Some qf ->
    graphicsCapable qf = Gz (i + Z.of_nat k) /\
    presentCapable qf (support (i + Z.of_nat k)) = Pz (i + Z.of_nat k).

(** A field that held [before] when the scan entered index [lo] and holds
    [after] when it has looked at the indices below [hi]: it is the last
    index in between that passes the test [Q], or unchanged if none does. *)
Definition last_match (Q : Z -> bool) (lo hi before after : Z) : Prop :=
  (after = before /\ forall j, lo <= j < hi -> Q j = false) \/
  (lo <= after < hi /\ Q after = true /\
   forall j, after < j < hi -> Q j = false).

(* ================================================================= *)
(** ** Vocabulary of the properties *)

(** The family of [dev] at index [j], if there is one. *)
Definition family_at (drv : Driver) (dev : Handle) (j : Z)
  : option VkQueueFamilyProperties :=
  if j <? 0 then None
  else nth_error (queueFamilyProperties drv dev) (Z.to_nat j).

(** Family [j] of [dev] has a queue and the graphics bit. *)
Definition graphics_at (drv : Driver) (dev : Handle) (j : Z) : bool :=
  match family_at drv dev j with
  | Some qf => graphicsCapable qf
  | None => false
  end.

(** Family [j] of [dev] has a queue and can present to [surf]. *)
Definition present_at (drv : Driver) (dev surf : Handle) (j : Z) : bool :=
  match family_at drv dev j with
  | Some qf => presentCapable qf (surfaceSupport drv dev j surf)
  | None => false
  end.

Definition family_count (drv : Driver) (dev : Handle) : nat :=
  List.length (queueFamilyProperties drv dev).

(** Some family passes the graphics test and some family passes the
    present test. *)
Definition both_available (drv : Driver) (dev surf : Handle) : bool :=
  existsb (graphics_at drv dev) (Zseq 0 (family_count drv dev))
  && existsb (present_at drv dev surf) (Zseq 0 (family_count drv dev)).

(** The adapter has a family with a queue and the graphics bit. *)
Definition has_graphics_family (drv : Driver) (dev : Handle) : Prop :=
  exists k qf,
    nth_error (queueFamilyProperties drv dev) k = Some qf /\
    0 < queueCount qf /\
    Z.land (queueFlags qf) VK_QUEUE_GRAPHICS_BIT <> 0.

(** The adapter has a family with a queue that can present to [surf]. *)
Definition has_present_family (drv : Driver) (dev surf : Handle) : Prop :=
  exists k qf,
    nth_error (queueFamilyProperties drv dev) k = Some qf /\
    0 < queueCount qf /\
    surfaceSupport drv dev (Z.of_nat k) surf = true.

(** [x] is the lowest index that passes [Q]. *)
Definition lowest_match (Q : Z -> bool) (x : Z) : Prop :=
  Q x = true /\ forall j, 0 <= j < x -> Q j = false.

(** The tie-break policy read literally: a complete selection holds, in
    each field, the lowest index that passes that field's test. *)
Definition lowest_index_policy (drv : Driver) (dev : Handle)
  (s : HelloTriangleApplication) : Prop :=
  forall indices,
    out (findQueueFamilies drv dev s) = Ret indices ->
    isComplete indices = true ->
    lowest_match (graphics_at drv dev) (graphicsFamily indices) /\
    lowest_match (present_at drv dev (surface s)) (presentFamily indices).

(** The Queue Family Resolver yields a complete selection for [dev]. *)
Definition complete_selection (drv : Driver) (s : HelloTriangleApplication)
  (dev : Handle) : bool :=
  match out (findQueueFamilies drv dev s) with
  | Ret indices => isComplete indices
  | _ => false
  end.

(** The two failures of [pickPhysicalDevice], by the message thrown. *)
Definition NoAdaptersFoundError : runtime_error :=
  RuntimeError "failed to find GPUs with Vulkan support!".

Definition NoSuitableAdapterError : runtime_error :=
  RuntimeError "failed to find a suitable GPU!".

(** The request [createLogicalDevice] makes for one family. *)
Definition single_queue_request (queueFamily : Z) : VkDeviceQueueCreateInfo :=
  {| queueFamilyIndex := queueFamily;
     dq_queueCount := 1;
     pQueuePriorities := 1%Q |}.

(** Calls that neither acquire nor destroy a handle. *)
Definition neutral (c : Call) : Prop :=
  acquired_by c = None /\ released_by c = None.

(** The calls [findQueueFamilies] makes when it looks at [n] families; it
    looks at none exactly when the adapter has none, and then the second
    query got a null array. *)
Definition findQueueFamilies_calls (dev surf : Handle) (n : nat) : list Call :=
  [vkGetPhysicalDeviceQueueFamilyProperties dev false;
   vkGetPhysicalDeviceQueueFamilyProperties dev (negb (Nat.eqb n 0))]
  ++ map (fun j => vkGetPhysicalDeviceSurfaceSupportKHR dev j surf) (Zseq 0 n).

Arguments findQueueFamilies_calls : simpl never.

(** The pure reading of [findQueueFamilies dev] on the object [s]. *)
Definition resolve (drv : Driver) (dev : Handle) (s : HelloTriangleApplication)
  : QueueFamilyIndices * nat :=
  scan (fun j => surfaceSupport drv dev j (surface s))
       (queueFamilyProperties drv dev) 0 QueueFamilyIndices_default.

(* ================================================================= *)
(** ** Concrete drivers *)

Definition family (graphics : bool) (count : Z) : VkQueueFamilyProperties :=
  {| queueFlags := if graphics then 1 else 0; queueCount := count |}.

(** An adapter is given by its handle and, per family, whether it has the
    graphics bit and whether it can present; every family has one queue.
    The window asks to close at call [closes_at]. *)
Definition toy_driver (adapters : list (Handle * list (bool * bool)))
  (closes_at : nat) : Driver :=
  let lookup d :=
    match find (fun a => fst a =? d) adapters with
    | Some a => snd a
    | None => []
    end in
  {| createWindow := fun _ _ _ => 11;
     requiredInstanceExtensions := ["VK_KHR_surface"];
     createInstanceResult := fun _ => Some 22;
     createWindowSurfaceResult := fun _ _ => Some 33;
     physicalDevices := fun _ => map fst adapters;
     queueFamilyProperties := fun d =>
       map (fun gp => family (fst gp) 1) (lookup d);
     surfaceSupport := fun d i _ =>
       snd (nth (Z.to_nat i) (lookup d) (false, false));
     createDeviceResult := fun _ _ => Some 44;
     deviceQueue := fun _ f _ => 100 + f;
     windowShouldClose := fun _ n => Nat.leb closes_at n |}.

Definition blank : HelloTriangleApplication := mkApp 0 0 0 0 0 0 0.

(** Families: graphics only, graphics only, present only. *)
Definition gpu_GGP : list (bool * bool) :=
  [(true, false); (true, false); (false, true)].

(** Families: graphics only, present only. *)
Definition gpu_GP : list (bool * bool) := [(true, false); (false, true)].

(** A single family that does both. *)
Definition gpu_both : list (bool * bool) := [(true, true)].

(** A single graphics-only family: never complete. *)
Definition gpu_G : list (bool * bool) := [(true, false)].

(** An adapter without a single queue family. *)
Definition drv_no_family : Driver := toy_driver [(5, [])] 0.

Definition drv_GGP : Driver := toy_driver [(5, gpu_GGP)] 0.

Definition drv_GP : Driver := toy_driver [(5, gpu_GP)] 0.

(** The object once adapter 5 has been picked. *)
Definition picked_GP : HelloTriangleApplication := set_physicalDevice 5 blank.

(** Families: graphics only, present only, both. *)
Definition drv_GPB : Driver :=
  toy_driver [(5, [(true, false); (false, true); (true, true)])] 0.

(** Families: nothing, nothing, both. *)
Definition drv_last_both : Driver :=
  toy_driver [(5, [(false, false); (false, false); (true, true)])] 0.

(** An unsuitable adapter followed by two suitable ones. *)
Definition drv_three : Driver :=
  toy_driver [(7, gpu_G); (5, gpu_GP); (6, gpu_both)] 0.

(** Two unsuitable adapters, the second without any queue family, followed
    by two suitable ones. *)
Definition drv_bare_first : Driver :=
  toy_driver [(7, gpu_G); (8, []); (5, gpu_GP); (6, gpu_both)] 0.

(** An adapter with graphics on families 0 and 2 and no present support. *)
Definition drv_no_present : Driver :=
  toy_driver [(5, [(true, false); (false, false); (true, false)])] 0.

(** Three adapters, none suitable. *)
Definition drv_unsuitable : Driver :=
  toy_driver [(7, gpu_G); (8, []); (9, gpu_G)] 0.

(** No adapter at all. *)
Definition drv_no_adapter : Driver := toy_driver [] 0.

(** Two adapters, the second suitable; the window closes at the third
    poll. *)
Definition drv_session : Driver := toy_driver [(7, gpu_G); (5, gpu_GGP)] 2.



(** The object with an adapter already chosen. *)
Definition chosen_earlier : HelloTriangleApplication :=
  set_physicalDevice 3 blank.

(* ================================================================= *)
(** ** Handle lifecycle vocabulary *)

(** The owned handles a call is given. *)
Definition uses (c : Call) : list Resource :=
  match c with
  | glfwCreateWindowSurface inst win _ =>
      [InstanceHandle inst; WindowHandle win]
  | vkEnumeratePhysicalDevices inst _ => [InstanceHandle inst]
  | vkGetPhysicalDeviceSurfaceSupportKHR _ _ surf => [SurfaceHandle surf]
  | vkGetDeviceQueue dev _ _ => [DeviceHandle dev]
  | glfwWindowShouldClose win => [WindowHandle win]
  | vkDestroyDevice dev => [DeviceHandle dev]
  | vkDestroySurfaceKHR inst surf => [InstanceHandle inst; SurfaceHandle surf]
  | vkDestroyInstance inst => [InstanceHandle inst]
  | glfwDestroyWindow win => [WindowHandle win]
  | _ => []
  end.

(** After the calls [before], handle [r] has been acquired and not yet
    destroyed. *)
Definition live (before : list Call) (r : Resource) : Prop :=
  In r (acquisitions before) /\ ~ In r (releases before).

(** Every call of [t], made after [before], is given live handles only. *)
Fixpoint safe_from (before t : list Call) : Prop :=
  match t with
  | [] => True
  | c :: t' =>
      (forall r, In r (uses c) -> live before r) /\
      safe_from (before ++ [c]) t'
  end.

(** Calls that acquire and destroy nothing and are given handles of [H]
    only. *)
Definition quiet_using (H : list Resource) (t : list Call) : Prop :=
  Forall (fun c => neutral c /\ incl (uses c) H) t.

(** The calls of an event loop that polls [k] times before the window asks
    to close. *)
Fixpoint mainLoop_calls (win : Handle) (k : nat) : list Call :=
  match k with
  | O => [glfwWindowShouldClose win]
  | S k' => glfwWindowShouldClose win :: glfwPollEvents :: mainLoop_calls win k'
  end.

(** The adapter and the queue requests of each [vkCreateDevice] call. *)
Definition device_creations (t : list Call)
  : list (Handle * list VkDeviceQueueCreateInfo) :=
  collect (fun c => match c with
                    | vkCreateDevice phys infos _ => Some (phys, infos)
                    | _ => None
                    end) t.

(** The queue requests for a selection, as [createLogicalDevice] builds
    them. *)
Definition requests_for (indices : QueueFamilyIndices)
  : list VkDeviceQueueCreateInfo :=
  map (fun f => single_queue_request (to_uint32 f))
      (if graphicsFamily indices =? presentFamily indices
       then [graphicsFamily indices]
       else [Z.min (graphicsFamily indices) (presentFamily indices);
             Z.max (graphicsFamily indices) (presentFamily indices)]).

(** The messages the initialisation can throw. *)
Definition init_messages : list string :=
  ["failed to create instance!";
   "failed to create window surface!";
   "failed to find GPUs with Vulkan support!";
   "failed to find a suitable GPU!";
   "failed to create logical device!"].

(** The possible acquisition histories of a run. *)
Definition acquisition_prefixes (w i sf d : Handle) : list (list Resource) :=
  [[WindowHandle w];
   [WindowHandle w; InstanceHandle i];
   [WindowHandle w; InstanceHandle i; SurfaceHandle sf];
   [WindowHandle w; InstanceHandle i; SurfaceHandle sf; DeviceHandle d]].

(* ================================================================= *)
(** ** The window-only program *)

(** main.cpp of Projects/VulkanTest: the same class before any Vulkan code
    was added.  [initWindow] and [mainLoop] are the ones above, [initVulkan]
    is empty, [cleanup] destroys the window, and the only member is
    [window], which has no initialiser. *)
Module WindowOnly.

Section Application.

Variable drv : Driver.

Definition initVulkan : M unit := ret tt.

Definition cleanup : M unit :=
  win <- member window ;;
  emit (glfwDestroyWindow win) ;;
  emit glfwTerminate.

Definition run (fuel : nat) : M unit :=
  initWindow drv ;;
  initVulkan ;;
  mainLoop drv fuel ;;
  cleanup.

Definition main (fuel : nat) (junk : HelloTriangleApplication) : Process :=
  let r := run fuel junk in
  match out r with
  | Ret _ => mkProcess (Some EXIT_SUCCESS) [] (calls r)
  | Throw e => mkProcess (Some EXIT_FAILURE) [what e] (calls r)
  | Running => mkProcess None [] (calls r)
  end.

End Application.

End WindowOnly.

(* ================================================================= *)
(** * Properties *)

(** ** Traces *)

Lemma collect_app {A B} (f : A -> option B) (l1 l2 : list A) :
  collect f (l1 ++ l2) = collect f l1 ++ collect f l2.
Proof. unfold collect. apply flat_map_app. Qed.

Lemma collect_map_none {A B C} (f : A -> option B) (g : C -> A) (l : list C) :
  (forall x, f (g x) = None) -> collect f (map g l) = [].
Proof.
  intros H. induction l as [|x l IH]; simpl; [reflexivity|].
  rewrite H. exact IH.
Qed.

Lemma collect_map_some {A B C} (f : A -> option B) (g : C -> A) (h : C -> B)
  (l : list C) :
  (forall x, f (g x) = Some (h x)) -> collect f (map g l) = map h l.
Proof.
  intros H. induction l as [|x l IH]; simpl; [reflexivity|].
  rewrite H. simpl. f_equal. exact IH.
Qed.

Lemma collect_neutral_acquired (t : list Call) :
  Forall neutral t -> acquisitions t = [].
Proof.
  induction 1 as [|c t [Ha _] _ IH]; simpl; [reflexivity|].
  rewrite Ha. exact IH.
Qed.

Lemma collect_neutral_released (t : list Call) :
  Forall neutral t -> releases t = [].
Proof.
  induction 1 as [|c t [_ Hr] _ IH]; simpl; [reflexivity|].
  rewrite Hr. exact IH.
Qed.

(** ** The queue family scan *)

Lemma findQueueFamilies_loop_run (drv : Driver) (dev : Handle)
  (l : list VkQueueFamilyProperties) :
  forall (i : Z) (indices : QueueFamilyIndices) (s : HelloTriangleApplication),
    let sc := scan (fun j => surfaceSupport drv dev j (surface s)) l i indices in
    findQueueFamilies_loop drv dev l i indices s
    = mkResult (Ret (fst sc)) s
        (map (fun j => vkGetPhysicalDeviceSurfaceSupportKHR dev j (surface s))
             (Zseq i (snd sc))).
Proof.
  induction l as [|qf rest IH]; intros i indices s; simpl.
  - reflexivity.
  - unfold bind, member, emit; simpl.
    fold (scan_step (fun j => surfaceSupport drv dev j (surface s)) i qf indices).
    destruct (isComplete (scan_step _ i qf indices)) eqn:E; simpl.
    + reflexivity.
    + rewrite IH; simpl.
      destruct (scan _ rest (i + 1) _) as [r n]; reflexivity.
Qed.


(** *** What the scan leaves in each field *)

Section ScanFacts.

Variable support : Z -> bool.

Variables Gz Pz : Z -> bool.

Local Abbreviation agrees := (scan_agrees support Gz Pz).

Lemma agrees_head l i qf :
  agrees (qf :: l) i ->
  graphicsCapable qf = Gz i /\ presentCapable qf (support i) = Pz i.
Proof.
  intros H. specialize (H O qf eq_refl). simpl in H.
  rewrite Z.add_0_r in H. exact H.
Qed.

Lemma agrees_tail l i qf : agrees (qf :: l) i -> agrees l (i + 1).
Proof.
  intros H k qf' Hk. specialize (H (S k) qf' Hk).
  replace (i + 1 + Z.of_nat k) with (i + Z.of_nat (S k)) by lia. exact H.
Qed.

Lemma scan_step_graphics i qf indices :
  graphicsFamily (scan_step support i qf indices)
  = if graphicsCapable qf then i else graphicsFamily indices.
Proof.
  unfold scan_step.
  destruct (graphicsCapable qf), (presentCapable qf (support i)); reflexivity.
Qed.

Lemma scan_step_present i qf indices :
  presentFamily (scan_step support i qf indices)
  = if presentCapable qf (support i) then i else presentFamily indices.
Proof.
  unfold scan_step.
  destruct (graphicsCapable qf), (presentCapable qf (support i)); reflexivity.
Qed.

Lemma isComplete_false indices :
  isComplete indices = false ->
  graphicsFamily indices < 0 \/ presentFamily indices < 0.
Proof.
  unfold isComplete. rewrite andb_false_iff, !Z.leb_gt. tauto.
Qed.

Lemma isComplete_true indices :
  isComplete indices = true ->
  0 <= graphicsFamily indices /\ 0 <= presentFamily indices.
Proof.
  unfold isComplete. rewrite andb_true_iff, !Z.leb_le. tauto.
Qed.

Lemma last_match_extend (Q : Z -> bool) i hi (c : bool) before after :
  Q i = c -> i < hi ->
  last_match Q (i + 1) hi (if c then i else before) after ->
  last_match Q i hi before after.
Proof.
  intros HQ Hlt [[Heq Hno] | [Hrange [Hyes Hno]]].
  - destruct c.
    + right. subst after. repeat split; try lia; auto.
      intros j Hj. apply Hno. lia.
    + left. split; [exact Heq|].
      intros j Hj. destruct (Z.eq_dec j i) as [->|Hne]; [exact HQ|].
      apply Hno. lia.
  - right. repeat split; try lia; auto.
Qed.

Lemma scan_inv l :
  forall i indices r n,
    0 <= i -> agrees l i -> scan support l i indices = (r, n) ->
    (n <= List.length l)%nat /\
    last_match Gz i (i + Z.of_nat n) (graphicsFamily indices) (graphicsFamily r) /\
    last_match Pz i (i + Z.of_nat n) (presentFamily indices) (presentFamily r) /\
    (isComplete r = false -> n = List.length l) /\
    (isComplete r = true -> isComplete indices = false ->
       (1 <= n)%nat /\
       ((graphicsFamily indices < 0 /\
         forall j, i <= j < i + Z.of_nat n - 1 -> Gz j = false) \/
        (presentFamily indices < 0 /\
         forall j, i <= j < i + Z.of_nat n - 1 -> Pz j = false))).
Proof.
  induction l as [|qf rest IH]; intros i indices r n Hi Hag Hscan; simpl in Hscan.
  - injection Hscan as <- <-. simpl.
    split; [lia|]. split; [|split; [|split]].
    + left. split; [reflexivity | intros; lia].
    + left. split; [reflexivity | intros; lia].
    + reflexivity.
    + intros Ht Hf. congruence.
  - destruct (agrees_head _ _ _ Hag) as [HG HP].
    pose proof (scan_step_graphics i qf indices) as Eg.
    pose proof (scan_step_present i qf indices) as Ep.
    rewrite HG in Eg. rewrite HP in Ep.
    destruct (isComplete (scan_step support i qf indices)) eqn:Ec.
    + injection Hscan as <- <-. simpl List.length.
      split; [lia|]. split; [|split; [|split]].
      * apply last_match_extend with (c := Gz i); [reflexivity | lia |].
        left. split; [exact Eg | intros; lia].
      * apply last_match_extend with (c := Pz i); [reflexivity | lia |].
        left. split; [exact Ep | intros; lia].
      * congruence.
      * intros _ Hf. apply isComplete_false in Hf. split; [lia|].
        destruct Hf; [left | right]; (split; [assumption | intros; lia]).
    + destruct (scan support rest (i + 1) (scan_step support i qf indices))
        as [r' n'] eqn:Er.
      injection Hscan as <- <-.
      destruct (IH (i + 1) _ _ _ ltac:(lia) (agrees_tail _ _ _ Hag) Er)
        as (Hn & Hg & Hp & Hall & Hstop).
      rewrite Eg in Hg. rewrite Ep in Hp.
      replace (i + 1 + Z.of_nat n') with (i + Z.of_nat (S n')) in Hg, Hp by lia.
      simpl List.length.
      split; [lia|]. split; [|split; [|split]].
      * apply last_match_extend with (c := Gz i); [reflexivity | lia | exact Hg].
      * apply last_match_extend with (c := Pz i); [reflexivity | lia | exact Hp].
      * intros Hf. rewrite (Hall Hf). reflexivity.
      * intros Ht Hf. split; [lia|].
        destruct (Hstop Ht Ec) as [_ [[Hneg Hno] | [Hneg Hno]]].
        -- left. rewrite Eg in Hneg.
           destruct (Gz i) eqn:EG; [lia|]. split; [exact Hneg|].
           intros j Hj. destruct (Z.eq_dec j i) as [->|Hne]; [exact EG|].
           apply Hno. lia.
        -- right. rewrite Ep in Hneg.
           destruct (Pz i) eqn:EP; [lia|]. split; [exact Hneg|].
           intros j Hj. destruct (Z.eq_dec j i) as [->|Hne]; [exact EP|].
           apply Hno. lia.
Qed.

End ScanFacts.

(** *** Running [findQueueFamilies] *)

(** The scan looks at no family exactly when there is none. *)
Lemma scan_looks_at_some (support : Z -> bool)
  (l : list VkQueueFamilyProperties) (i : Z) (indices : QueueFamilyIndices) :
  (Z.of_nat (List.length l) =? 0) = Nat.eqb (snd (scan support l i indices)) 0.
Proof.
  destruct l as [|qf rest]; [reflexivity|]. cbn [scan List.length].
  destruct (isComplete (scan_step support i qf indices)); [reflexivity|].
  destruct (scan support rest (i + 1) _). reflexivity.
Qed.

Lemma findQueueFamilies_run (drv : Driver) (dev : Handle)
  (s : HelloTriangleApplication) :
  findQueueFamilies drv dev s
  = mkResult (Ret (fst (resolve drv dev s))) s
      (findQueueFamilies_calls dev (surface s) (snd (resolve drv dev s))).
Proof.
  unfold findQueueFamilies, bind, emit. cbn [out app calls].
  rewrite findQueueFamilies_loop_run. cbn [out app calls].
  unfold findQueueFamilies_calls, resolve.
  rewrite (scan_looks_at_some (fun j => surfaceSupport drv dev j (surface s))
             (queueFamilyProperties drv dev) 0 QueueFamilyIndices_default).
  reflexivity.
Qed.

Lemma resolve_agrees (drv : Driver) (dev surf : Handle) :
  scan_agrees (fun j => surfaceSupport drv dev j surf)
    (graphics_at drv dev) (present_at drv dev surf)
    (queueFamilyProperties drv dev) 0.
Proof.
  intros k qf Hk. unfold graphics_at, present_at, family_at. simpl.
  destruct (Z.of_nat k <? 0) eqn:E; [apply Z.ltb_lt in E; lia|].
  rewrite Nat2Z.id, Hk. split; reflexivity.
Qed.

Lemma In_Zseq (n : nat) :
  forall i j, In j (Zseq i n) <-> i <= j < i + Z.of_nat n.
Proof.
  induction n as [|n IH]; intros i j; simpl.
  - split; [tauto | lia].
  - rewrite IH. lia.
Qed.

Lemma existsb_Zseq (Q : Z -> bool) (i : Z) (n : nat) :
  existsb Q (Zseq i n) = true <->
  exists j, i <= j < i + Z.of_nat n /\ Q j = true.
Proof.
  rewrite existsb_exists. split; intros [j [H1 H2]]; exists j.
  - apply In_Zseq in H1. tauto.
  - split; [apply In_Zseq|]; assumption.
Qed.

Lemma examined_families_calls dev surf n :
  examined_families (findQueueFamilies_calls dev surf n) = Zseq 0 n.
Proof.
  unfold examined_families, findQueueFamilies_calls.
  rewrite collect_app. simpl.
  rewrite collect_map_some with (h := fun j => j); [apply map_id | reflexivity].
Qed.

Lemma family_queries_calls dev surf n :
  family_queries (findQueueFamilies_calls dev surf n) = [dev; dev].
Proof.
  unfold family_queries, findQueueFamilies_calls.
  rewrite collect_app. simpl.
  rewrite collect_map_none; reflexivity.
Qed.

Lemma family_queries_app (t1 t2 : list Call) :
  family_queries (t1 ++ t2) = family_queries t1 ++ family_queries t2.
Proof. apply collect_app. Qed.

Lemma twice_app (l1 l2 : list Handle) :
  twice (l1 ++ l2) = twice l1 ++ twice l2.
Proof. apply flat_map_app. Qed.

Lemma neutral_calls dev surf n :
  Forall neutral (findQueueFamilies_calls dev surf n).
Proof.
  unfold findQueueFamilies_calls. apply Forall_app. split.
  - repeat constructor.
  - apply Forall_forall. intros c Hc. apply in_map_iff in Hc.
    destruct Hc as [j [<- _]]. split; reflexivity.
Qed.

Lemma graphicsCapable_true qf :
  graphicsCapable qf = true <->
  0 < queueCount qf /\ Z.land (queueFlags qf) VK_QUEUE_GRAPHICS_BIT <> 0.
Proof.
  unfold graphicsCapable.
  rewrite andb_true_iff, Z.ltb_lt, negb_true_iff, Z.eqb_neq. tauto.
Qed.

Lemma presentCapable_true qf b :
  presentCapable qf b = true <-> 0 < queueCount qf /\ b = true.
Proof.
  unfold presentCapable. rewrite andb_true_iff, Z.ltb_lt. tauto.
Qed.

Lemma family_at_Some drv dev j qf :
  family_at drv dev j = Some qf <->
  exists k, j = Z.of_nat k /\ nth_error (queueFamilyProperties drv dev) k = Some qf.
Proof.
  unfold family_at. split.
  - destruct (j <? 0) eqn:E; [discriminate|]. apply Z.ltb_ge in E.
    intros H. exists (Z.to_nat j). split; [lia | exact H].
  - intros [k [-> H]].
    destruct (Z.of_nat k <? 0) eqn:E; [apply Z.ltb_lt in E; lia|].
    rewrite Nat2Z.id. exact H.
Qed.

Lemma has_graphics_family_iff drv dev :
  has_graphics_family drv dev <-> exists j, graphics_at drv dev j = true.
Proof.
  unfold has_graphics_family, graphics_at. split.
  - intros (k & qf & Hk & Hq). exists (Z.of_nat k).
    replace (family_at drv dev (Z.of_nat k)) with (Some qf)
      by (symmetry; apply family_at_Some; eauto).
    apply graphicsCapable_true. exact Hq.
  - intros [j Hj]. destruct (family_at drv dev j) as [qf|] eqn:E; [|discriminate].
    apply family_at_Some in E. destruct E as [k [-> Hk]].
    exists k, qf. split; [exact Hk|]. apply graphicsCapable_true. exact Hj.
Qed.

Lemma has_present_family_iff drv dev surf :
  has_present_family drv dev surf <-> exists j, present_at drv dev surf j = true.
Proof.
  unfold has_present_family, present_at. split.
  - intros (k & qf & Hk & Hq). exists (Z.of_nat k).
    replace (family_at drv dev (Z.of_nat k)) with (Some qf)
      by (symmetry; apply family_at_Some; eauto).
    apply presentCapable_true. exact Hq.
  - intros [j Hj]. destruct (family_at drv dev j) as [qf|] eqn:E; [|discriminate].
    apply family_at_Some in E. destruct E as [k [-> Hk]].
    exists k, qf. split; [exact Hk|]. apply presentCapable_true. exact Hj.
Qed.

(** Outside the family array nothing passes a test. *)
Lemma graphics_at_range drv dev j :
  graphics_at drv dev j = true -> 0 <= j < Z.of_nat (family_count drv dev).
Proof.
  unfold graphics_at, family_count.
  destruct (family_at drv dev j) as [qf|] eqn:E; [|discriminate].
  apply family_at_Some in E. destruct E as [k [-> Hk]]. intros _.
  assert (k < List.length (queueFamilyProperties drv dev))%nat
    by (apply nth_error_Some; congruence).
  lia.
Qed.

Lemma present_at_range drv dev surf j :
  present_at drv dev surf j = true -> 0 <= j < Z.of_nat (family_count drv dev).
Proof.
  unfold present_at, family_count.
  destruct (family_at drv dev j) as [qf|] eqn:E; [|discriminate].
  apply family_at_Some in E. destruct E as [k [-> Hk]]. intros _.
  assert (k < List.length (queueFamilyProperties drv dev))%nat
    by (apply nth_error_Some; congruence).
  lia.
Qed.

(** The invariant of the scan, for the whole family array. *)
Lemma resolve_inv (drv : Driver) (dev : Handle) (s : HelloTriangleApplication) :
  let r := fst (resolve drv dev s) in
  let n := snd (resolve drv dev s) in
  (n <= family_count drv dev)%nat /\
  last_match (graphics_at drv dev) 0 (Z.of_nat n) (-1) (graphicsFamily r) /\
  last_match (present_at drv dev (surface s)) 0 (Z.of_nat n) (-1)
    (presentFamily r) /\
  (isComplete r = false -> n = family_count drv dev) /\
  (isComplete r = true ->
     (1 <= n)%nat /\
     ((forall j, 0 <= j < Z.of_nat n - 1 -> graphics_at drv dev j = false) \/
      (forall j, 0 <= j < Z.of_nat n - 1 ->
         present_at drv dev (surface s) j = false))).
Proof.
  intros r n.
  destruct (resolve drv dev s) as [r0 n0] eqn:E. simpl in r, n. subst r n.
  unfold resolve in E.
  destruct (scan_inv _ _ _ _ 0 _ _ _ (Z.le_refl 0)
              (resolve_agrees drv dev (surface s)) E)
    as (Hn & Hg & Hp & Hall & Hstop).
  simpl in Hg, Hp.
  repeat (split; [assumption|]).
  intros Ht. destruct (Hstop Ht eq_refl) as [H1 [[_ H2] | [_ H2]]].
  - split; [exact H1 | left; exact H2].
  - split; [exact H1 | right; exact H2].
Qed.

(** *** The selection returned *)

(** C9.  [findQueueFamilies] never throws: for every driver, adapter and
    object it returns a selection and leaves the object as it was; for an
    adapter with no queue family the selection has both fields at the
    sentinel -1 and is incomplete. *)
Theorem findQueueFamilies_total (drv : Driver) (dev : Handle)
  (s : HelloTriangleApplication) :
  (exists indices,
      out (findQueueFamilies drv dev s) = Ret indices /\
      app (findQueueFamilies drv dev s) = s) /\
  (queueFamilyProperties drv dev = [] ->
   out (findQueueFamilies drv dev s)
   = Ret {| graphicsFamily := -1; presentFamily := -1 |} /\
   out (isDeviceSuitable drv dev s) = Ret false).
Proof.
  split.
  - rewrite findQueueFamilies_run. simpl. eauto.
  - intros Hnil. unfold isDeviceSuitable, bind.
    rewrite findQueueFamilies_run. unfold resolve. rewrite Hnil. simpl.
    split; reflexivity.
Qed.

Lemma findQueueFamilies_total_witness :
  queueFamilyProperties drv_no_family 5 = [] /\
  out (findQueueFamilies drv_no_family 5 blank)
  = Ret {| graphicsFamily := -1; presentFamily := -1 |}.
Proof.
  split; [reflexivity|].
  apply (proj2 (findQueueFamilies_total drv_no_family 5 blank)).
  reflexivity.
Defined.

(** C10.  The selection [findQueueFamilies] returns is complete exactly
    when the adapter has a family with a queue and the graphics bit and a
    family with a queue and present support for the surface;
    [isDeviceSuitable] returns that very existence test. *)
Theorem complete_iff_both_available (drv : Driver) (dev : Handle)
  (s : HelloTriangleApplication) :
  exists indices,
    out (findQueueFamilies drv dev s) = Ret indices /\
    (isComplete indices = true <->
     has_graphics_family drv dev /\ has_present_family drv dev (surface s)) /\
    out (isDeviceSuitable drv dev s)
    = Ret (both_available drv dev (surface s)) /\
    (both_available drv dev (surface s) = true <->
     has_graphics_family drv dev /\ has_present_family drv dev (surface s)).
Proof.
  exists (fst (resolve drv dev s)).
  destruct (resolve_inv drv dev s) as (Hn & Hg & Hp & Hall & Hstop).
  set (r := fst (resolve drv dev s)) in *.
  set (n := snd (resolve drv dev s)) in *.
  assert (Hiff : isComplete r = true <->
            has_graphics_family drv dev /\ has_present_family drv dev (surface s)).
  { rewrite has_graphics_family_iff, has_present_family_iff. split.
    - intros Hc. apply isComplete_true in Hc. destruct Hc as [H0g H0p].
      destruct Hg as [[Hg _] | (_ & Hg & _)]; [lia|].
      destruct Hp as [[Hp _] | (_ & Hp & _)]; [lia|].
      eauto.
    - intros [[jg Hjg] [jp Hjp]].
      destruct (isComplete r) eqn:Hc; [reflexivity|].
      specialize (Hall eq_refl).
      pose proof (graphics_at_range _ _ _ Hjg) as Rg.
      pose proof (present_at_range _ _ _ _ Hjp) as Rp.
      apply isComplete_false in Hc. destruct Hc as [Hc | Hc].
      + destruct Hg as [[_ Hg] | (Hg & _)]; [|lia].
        rewrite Hg in Hjg; [discriminate | lia].
      + destruct Hp as [[_ Hp] | (Hp & _)]; [|lia].
        rewrite Hp in Hjp; [discriminate | lia]. }
  assert (Hb : both_available drv dev (surface s) = true <->
            has_graphics_family drv dev /\ has_present_family drv dev (surface s)).
  { unfold both_available.
    rewrite andb_true_iff, !existsb_Zseq,
      has_graphics_family_iff, has_present_family_iff.
    split; intros [[jg Hjg] [jp Hjp]].
    - split; [exists jg | exists jp]; tauto.
    - split; [exists jg | exists jp]; (split; [|assumption]).
      + apply graphics_at_range in Hjg. lia.
      + apply present_at_range in Hjp. lia. }
  split; [rewrite findQueueFamilies_run; reflexivity|].
  split; [exact Hiff|]. split; [|exact Hb].
  unfold isDeviceSuitable, bind. rewrite findQueueFamilies_run. simpl.
  fold r. f_equal.
  apply eq_true_iff_eq. rewrite Hiff, Hb. reflexivity.
Qed.

(** Where a complete scan stopped and what it left in the fields. *)
Lemma resolve_complete (drv : Driver) (dev : Handle)
  (s : HelloTriangleApplication) :
  isComplete (fst (resolve drv dev s)) = true ->
  let g := graphicsFamily (fst (resolve drv dev s)) in
  let p := presentFamily (fst (resolve drv dev s)) in
  let k := Z.max g p in
  Z.of_nat (snd (resolve drv dev s)) = k + 1 /\
  0 <= k /\
  graphics_at drv dev g = true /\
  present_at drv dev (surface s) p = true /\
  (forall j, g < j <= k -> graphics_at drv dev j = false) /\
  (forall j, p < j <= k -> present_at drv dev (surface s) j = false) /\
  ((forall j, 0 <= j < k -> graphics_at drv dev j = false) \/
   (forall j, 0 <= j < k -> present_at drv dev (surface s) j = false)).
Proof.
  intros Hcomplete.
  destruct (resolve_inv drv dev s) as (Hn & Hg & Hp & Hall & Hstop).
  set (n := snd (resolve drv dev s)) in *.
  destruct (Hstop Hcomplete) as [Hn1 Hfirst].
  apply isComplete_true in Hcomplete. destruct Hcomplete as [H0g H0p].
  destruct Hg as [[Hg _] | (Rg & Gg & Ng)]; [lia|].
  destruct Hp as [[Hp _] | (Rp & Gp & Np)]; [lia|].
  intros g p k. fold g in H0g, Rg, Gg, Ng. fold p in H0p, Rp, Gp, Np.
  assert (Hk : k = Z.of_nat n - 1).
  { unfold k. destruct Hfirst as [F | F].
    - assert (~ g < Z.of_nat n - 1)
        by (intros C; rewrite F in Gg; [discriminate | lia]).
      lia.
    - assert (~ p < Z.of_nat n - 1)
        by (intros C; rewrite F in Gp; [discriminate | lia]).
      lia. }
  split; [lia|]. split; [lia|].
  split; [exact Gg|]. split; [exact Gp|].
  split; [intros j Hj; apply Ng; lia|].
  split; [intros j Hj; apply Np; lia|].
  rewrite Hk; exact Hfirst.
Qed.

Lemma findQueueFamilies_ret (drv : Driver) (dev : Handle)
  (s : HelloTriangleApplication) (indices : QueueFamilyIndices) :
  out (findQueueFamilies drv dev s) = Ret indices ->
  fst (resolve drv dev s) = indices.
Proof.
  rewrite findQueueFamilies_run. simpl. intros H. injection H as H. exact H.
Qed.

(** C1, as the code has it.  When the scan ends complete, with [k] the
    larger of the two fields: each field holds an index that passes its
    test and no higher index up to [k] passes it (the last match, not the
    lowest); below [k] one of the two tests is never passed, so [k] is the
    lowest index at which both requirements have been met; and the two
    fields are equal exactly when family [k] passes both tests. *)
Theorem tie_break_last_match (drv : Driver) (dev : Handle)
  (s : HelloTriangleApplication) (indices : QueueFamilyIndices)
  (Hret : out (findQueueFamilies drv dev s) = Ret indices)
  (Hcomplete : isComplete indices = true) :
  let g := graphicsFamily indices in
  let p := presentFamily indices in
  let k := Z.max g p in
  graphics_at drv dev g = true /\
  present_at drv dev (surface s) p = true /\
  (forall j, g < j <= k -> graphics_at drv dev j = false) /\
  (forall j, p < j <= k -> present_at drv dev (surface s) j = false) /\
  ((forall j, 0 <= j < k -> graphics_at drv dev j = false) \/
   (forall j, 0 <= j < k -> present_at drv dev (surface s) j = false)) /\
  (g = p <->
   graphics_at drv dev k = true /\ present_at drv dev (surface s) k = true).
Proof.
  apply findQueueFamilies_ret in Hret. subst indices.
  destruct (resolve_complete drv dev s Hcomplete)
    as (_ & _ & Gg & Gp & Ng & Np & Hfirst).
  intros g p k. fold g in Gg, Ng. fold p in Gp, Np. fold k in Ng, Np, Hfirst.
  repeat (split; [assumption|]).
  split.
  - intros Heq. assert (g = k /\ p = k) as [Eg Ep] by lia.
    rewrite <- Eg at 1. rewrite <- Ep. split; assumption.
  - intros [Gk Pk].
    assert (~ g < k) by (intros C; rewrite Ng in Gk; [discriminate | lia]).
    assert (~ p < k) by (intros C; rewrite Np in Pk; [discriminate | lia]).
    lia.
Qed.

Lemma tie_break_last_match_witness :
  graphics_at drv_GGP 5 1 = true /\
  present_at drv_GGP 5 (surface blank) 2 = true /\
  (forall j, 1 < j <= 2 -> graphics_at drv_GGP 5 j = false).
Proof.
  pose proof (tie_break_last_match drv_GGP 5 blank
                {| graphicsFamily := 1; presentFamily := 2 |}
                eq_refl eq_refl) as H.
  simpl in H. destruct H as (H1 & H2 & H3 & _).
  repeat split; assumption.
Defined.

(** C1, as stated: on the adapter with families graphics, graphics,
    present the scan returns [graphicsFamily = 1] although family 0 passes
    the graphics test, so the fields do not hold the lowest indices. *)
Lemma lowest_index_policy_fails :
  out (findQueueFamilies drv_GGP 5 blank)
  = Ret {| graphicsFamily := 1; presentFamily := 2 |} /\
  graphics_at drv_GGP 5 0 = true /\
  ~ lowest_index_policy drv_GGP 5 blank.
Proof.
  split; [reflexivity|]. split; [reflexivity|].
  intros H.
  destruct (H {| graphicsFamily := 1; presentFamily := 2 |} eq_refl eq_refl)
    as [[_ Hlow] _].
  specialize (Hlow 0 ltac:(simpl; lia)).
  discriminate Hlow.
Qed.

(** C7.  The scan stops as soon as the selection is complete: the indices
    whose present support is queried are exactly [0 .. k], where [k], the
    larger of the two fields, is the first index at which both requirements
    are met (below it one of the two tests is never passed).  No index
    above [k] is examined, whatever the families there offer. *)
Theorem scan_stops_when_complete (drv : Driver) (dev : Handle)
  (s : HelloTriangleApplication) (indices : QueueFamilyIndices)
  (Hret : out (findQueueFamilies drv dev s) = Ret indices)
  (Hcomplete : isComplete indices = true) :
  let k := Z.max (graphicsFamily indices) (presentFamily indices) in
  examined_families (calls (findQueueFamilies drv dev s))
  = Zseq 0 (Z.to_nat (k + 1)) /\
  (forall j, k < j ->
     ~ In j (examined_families (calls (findQueueFamilies drv dev s)))) /\
  ((forall j, 0 <= j < k -> graphics_at drv dev j = false) \/
   (forall j, 0 <= j < k -> present_at drv dev (surface s) j = false)).
Proof.
  intros k.
  pose proof (findQueueFamilies_ret _ _ _ _ Hret) as E. subst indices.
  destruct (resolve_complete drv dev s Hcomplete)
    as (Hn & H0 & _ & _ & _ & _ & Hfirst).
  fold k in Hn, H0, Hfirst.
  rewrite findQueueFamilies_run. simpl calls.
  rewrite examined_families_calls.
  replace (Z.to_nat (k + 1)) with (snd (resolve drv dev s)) by lia.
  split; [reflexivity|]. split; [|exact Hfirst].
  intros j Hj Hin. apply In_Zseq in Hin. lia.
Qed.

Lemma scan_stops_when_complete_witness :
  examined_families (calls (findQueueFamilies drv_GPB 5 blank)) = [0; 1] /\
  ~ In 2 (examined_families (calls (findQueueFamilies drv_GPB 5 blank))).
Proof.
  pose proof (scan_stops_when_complete drv_GPB 5 blank
                {| graphicsFamily := 0; presentFamily := 1 |}
                eq_refl eq_refl) as H.
  simpl in H. destruct H as (H1 & H2 & _).
  split; [exact H1 | apply H2; lia].
Defined.

(** ** The device selector *)

Section Selector.

Variable drv : Driver.

Lemma isDeviceSuitable_run (dev : Handle) (s : HelloTriangleApplication) :
  isDeviceSuitable drv dev s
  = mkResult (Ret (complete_selection drv s dev)) s
      (findQueueFamilies_calls dev (surface s) (snd (resolve drv dev s))).
Proof.
  unfold isDeviceSuitable, complete_selection, bind.
  rewrite findQueueFamilies_run. simpl. rewrite app_nil_r. reflexivity.
Qed.

(** The loop never throws, makes only neutral calls and touches no member
    but [physicalDevice]. *)
Lemma pickPhysicalDevice_loop_any (devices : list Handle)
  (s : HelloTriangleApplication) :
  let r := pickPhysicalDevice_loop drv devices s in
  out r = Ret tt /\ Forall neutral (calls r) /\
  (app r = s \/ exists d, In d devices /\ app r = set_physicalDevice d s).
Proof.
  induction devices as [|x rest IH]; cbn [pickPhysicalDevice_loop].
  - cbn. repeat split; auto.
  - cbv zeta in *. unfold bind. rewrite isDeviceSuitable_run. cbn [out app calls].
    destruct (complete_selection drv s x); cbn [assign out app calls].
    + split; [reflexivity|]. split.
      * rewrite app_nil_r. apply neutral_calls.
      * right. exists x. split; [left|]; reflexivity.
    + destruct IH as (Ho & Hn & Ha).
      split; [exact Ho|]. split.
      * apply Forall_app. split; [apply neutral_calls | exact Hn].
      * destruct Ha as [Ha | [d [Hd Ha]]]; [left; exact Ha|].
        right. exists d. split; [right|]; assumption.
Qed.

(** Unsuitable adapters are walked through one by one, the object
    untouched. *)
Lemma pickPhysicalDevice_loop_skip (pre rest : list Handle)
  (s : HelloTriangleApplication) :
  (forall x, In x pre -> complete_selection drv s x = false) ->
  let r := pickPhysicalDevice_loop drv (pre ++ rest) s in
  let r' := pickPhysicalDevice_loop drv rest s in
  out r = out r' /\ app r = app r' /\
  family_queries (calls r) = twice pre ++ family_queries (calls r').
Proof.
  cbv zeta.
  induction pre as [|x pre IH]; intros Hpre.
  - repeat split.
  - rewrite <- app_comm_cons. cbn [pickPhysicalDevice_loop].
    unfold bind. rewrite isDeviceSuitable_run. cbn [out app calls].
    rewrite (Hpre x (or_introl eq_refl)).
    destruct IH as (Ho & Ha & He); [intros y Hy; apply Hpre; right; exact Hy|].
    destruct (out (pickPhysicalDevice_loop drv (pre ++ rest) s)) eqn:E;
      cbn [out app calls]; (split; [exact Ho|]); (split; [exact Ha|]);
      rewrite family_queries_app, family_queries_calls, He; reflexivity.
Qed.

Lemma pickPhysicalDevice_loop_hit (d : Handle) (post : list Handle)
  (s : HelloTriangleApplication) :
  complete_selection drv s d = true ->
  let r := pickPhysicalDevice_loop drv (d :: post) s in
  out r = Ret tt /\ app r = set_physicalDevice d s /\
  family_queries (calls r) = [d; d].
Proof.
  intros Hd. cbv zeta. cbn [pickPhysicalDevice_loop].
  unfold bind. rewrite isDeviceSuitable_run. cbn [out app calls].
  rewrite Hd. cbn [assign out app calls]. repeat split.
  rewrite app_nil_r. apply family_queries_calls.
Qed.

Lemma pickPhysicalDevice_unfold (s : HelloTriangleApplication) :
  physicalDevices drv (instance s) <> [] ->
  let l := pickPhysicalDevice_loop drv (physicalDevices drv (instance s)) s in
  pickPhysicalDevice drv s
  = mkResult
      (if physicalDevice (app l) =? VK_NULL_HANDLE
       then Throw NoSuitableAdapterError else Ret tt)
      (app l)
      (vkEnumeratePhysicalDevices (instance s) false
       :: vkEnumeratePhysicalDevices (instance s) true :: calls l).
Proof.
  intros Hne l. unfold pickPhysicalDevice, bind, member, emit.
  cbn [out app calls List.app].
  destruct (physicalDevices drv (instance s)) as [|d ds] eqn:E; [congruence|].
  change (Z.of_nat (List.length (d :: ds)) =? 0) with false. cbv iota.
  cbn [out app calls List.app].
  destruct (pickPhysicalDevice_loop_any (d :: ds) s) as (Ho & _ & _).
  fold l in Ho |- *. rewrite Ho. cbn [out app calls].
  destruct (physicalDevice (app l) =? VK_NULL_HANDLE);
    cbn [throw ret out app calls]; rewrite ?app_nil_r; reflexivity.
Qed.

End Selector.

(** C2.  When the enumerated adapters are [pre ++ d :: post], no adapter of
    [pre] yields a complete selection and [d] does, [pickPhysicalDevice]
    returns normally with [physicalDevice = d]; the queue families it
    asked for are those of the adapters of [pre], in order, then of [d],
    each adapter asked twice (the count, then the array), and of no
    adapter of [post]. *)
Theorem pickPhysicalDevice_first_suitable (drv : Driver)
  (s : HelloTriangleApplication) (pre post : list Handle) (d : Handle)
  (Henum : physicalDevices drv (instance s) = pre ++ d :: post)
  (Hpre : forall x, In x pre -> complete_selection drv s x = false)
  (Hd : complete_selection drv s d = true)
  (Hvalid : d <> VK_NULL_HANDLE) :
  out (pickPhysicalDevice drv s) = Ret tt /\
  physicalDevice (app (pickPhysicalDevice drv s)) = d /\
  family_queries (calls (pickPhysicalDevice drv s)) = twice (pre ++ [d]).
Proof.
  assert (Hne : physicalDevices drv (instance s) <> [])
    by (rewrite Henum; destruct pre; discriminate).
  rewrite (pickPhysicalDevice_unfold drv s Hne). rewrite Henum.
  destruct (pickPhysicalDevice_loop_skip drv pre (d :: post) s Hpre)
    as (Ho & Ha & He).
  destruct (pickPhysicalDevice_loop_hit drv d post s Hd) as (Ho' & Ha' & He').
  cbn [out app calls]. rewrite Ha, Ha'.
  cbn [physicalDevice set_physicalDevice].
  destruct (d =? VK_NULL_HANDLE) eqn:E; [apply Z.eqb_eq in E; contradiction|].
  split; [reflexivity|]. split; [reflexivity|].
  change (family_queries
            (calls (pickPhysicalDevice_loop drv (pre ++ d :: post) s))
          = twice (pre ++ [d])).
  rewrite He, He', twice_app. reflexivity.
Qed.

Lemma pickPhysicalDevice_first_suitable_witness :
  out (pickPhysicalDevice drv_bare_first blank) = Ret tt /\
  physicalDevice (app (pickPhysicalDevice drv_bare_first blank)) = 5 /\
  family_queries (calls (pickPhysicalDevice drv_bare_first blank))
  = [7; 7; 8; 8; 5; 5].
Proof.
  apply (pickPhysicalDevice_first_suitable drv_bare_first blank [7; 8] [6] 5).
  - reflexivity.
  - intros x [<- | [<- | []]]; reflexivity.
  - reflexivity.
  - discriminate.
Defined.

(** C8.  [pickPhysicalDevice] throws the no-adapter error exactly when the
    enumeration is empty; on a non-empty enumeration in which no adapter
    yields a complete selection it throws the no-suitable-adapter error,
    having asked for the queue families of every adapter of the
    enumeration, in order, each adapter twice (the count, then the
    array). *)
Theorem pickPhysicalDevice_errors (drv : Driver)
  (s : HelloTriangleApplication)
  (Hfresh : physicalDevice s = VK_NULL_HANDLE) :
  (out (pickPhysicalDevice drv s) = Throw NoAdaptersFoundError <->
   physicalDevices drv (instance s) = []) /\
  (physicalDevices drv (instance s) <> [] ->
   (forall x, In x (physicalDevices drv (instance s)) ->
              complete_selection drv s x = false) ->
   out (pickPhysicalDevice drv s) = Throw NoSuitableAdapterError /\
   family_queries (calls (pickPhysicalDevice drv s))
   = twice (physicalDevices drv (instance s))).
Proof.
  split.
  - split.
    + intros Hthrow.
      destruct (physicalDevices drv (instance s)) as [|d ds] eqn:E;
        [reflexivity|].
      assert (Hne : physicalDevices drv (instance s) <> [])
        by (rewrite E; discriminate).
      rewrite (pickPhysicalDevice_unfold drv s Hne) in Hthrow.
      cbn [out] in Hthrow.
      destruct (physicalDevice _ =? VK_NULL_HANDLE); discriminate Hthrow.
    + intros Hnil. unfold pickPhysicalDevice, bind, member, emit.
      cbn [out app calls]. rewrite Hnil. reflexivity.
  - intros Hne Hall.
    rewrite (pickPhysicalDevice_unfold drv s Hne).
    pose proof (pickPhysicalDevice_loop_skip drv
                  (physicalDevices drv (instance s)) [] s Hall) as H.
    cbv zeta in H. rewrite app_nil_r in H. destruct H as (_ & Ha & He).
    cbn [out app calls]. rewrite Ha. cbn [pickPhysicalDevice_loop ret app].
    rewrite Hfresh. split; [reflexivity|].
    change (family_queries
              (calls (pickPhysicalDevice_loop drv
                        (physicalDevices drv (instance s)) s))
            = twice (physicalDevices drv (instance s))).
    rewrite He. cbn. apply app_nil_r.
Qed.

Lemma pickPhysicalDevice_errors_witness :
  out (pickPhysicalDevice drv_unsuitable blank) = Throw NoSuitableAdapterError /\
  family_queries (calls (pickPhysicalDevice drv_unsuitable blank))
  = [7; 7; 8; 8; 9; 9].
Proof.
  apply (proj2 (pickPhysicalDevice_errors drv_unsuitable blank eq_refl)).
  - discriminate.
  - intros x [<- | [<- | [<- | []]]]; reflexivity.
Defined.

(** ** The logical device builder *)

Lemma std_set_pair (g p : Z) :
  std_set [g; p] = if g =? p then [g] else [Z.min g p; Z.max g p].
Proof.
  unfold std_set. simpl.
  destruct (p <? g) eqn:E1; destruct (p =? g) eqn:E2; destruct (g =? p) eqn:E3;
    rewrite ?Z.ltb_lt, ?Z.ltb_ge, ?Z.eqb_eq, ?Z.eqb_neq in *;
    try lia; try reflexivity.
  - rewrite Z.min_r, Z.max_l by lia. reflexivity.
  - rewrite Z.min_l, Z.max_r by lia. reflexivity.
Qed.

Lemma queueCreateInfos_loop_map (q : Q) (families : list Z) :
  forall acc,
    queueCreateInfos_loop q families acc
    = acc ++ map (fun f => {| queueFamilyIndex := to_uint32 f;
                              dq_queueCount := 1;
                              pQueuePriorities := q |}) families.
Proof.
  induction families as [|f rest IH]; intros acc; simpl.
  - symmetry. apply app_nil_r.
  - rewrite IH, <- app_assoc. reflexivity.
Qed.

Lemma to_uint32_id (z : Z) : 0 <= z < 2 ^ 32 -> to_uint32 z = z.
Proof. intros H. unfold to_uint32. apply Z.mod_small. exact H. Qed.

(** The whole of [createLogicalDevice], by the answer to [vkCreateDevice]. *)
Lemma createLogicalDevice_run (drv : Driver) (s : HelloTriangleApplication) :
  let phys := physicalDevice s in
  let indices := fst (resolve drv phys s) in
  let queries :=
    findQueueFamilies_calls phys (surface s) (snd (resolve drv phys s)) in
  let infos :=
    queueCreateInfos_loop 1%Q
      (std_set [graphicsFamily indices; presentFamily indices]) [] in
  let family := to_uint32 (presentFamily indices) in
  createLogicalDevice drv s
  = match createDeviceResult drv phys infos with
    | Some h =>
        mkResult (Ret tt)
          (set_presentQueue (deviceQueue drv h family 0) (set_device h s))
          (queries ++ [vkCreateDevice phys infos (Some h);
                       vkGetDeviceQueue h family 0])
    | None =>
        mkResult (Throw (RuntimeError "failed to create logical device!")) s
          (queries ++ [vkCreateDevice phys infos None])
    end.
Proof.
  cbv zeta. unfold createLogicalDevice, bind, member.
  cbn [out app calls]. rewrite findQueueFamilies_run. cbn [out app calls].
  destruct (createDeviceResult drv (physicalDevice s) _) as [h|];
    cbn [emit assign throw out app calls device set_device List.app];
    rewrite ?app_nil_r; reflexivity.
Qed.

Lemma queue_requests_calls dev surf n :
  queue_requests (findQueueFamilies_calls dev surf n) = [].
Proof.
  unfold queue_requests, findQueueFamilies_calls.
  rewrite collect_app. simpl. apply collect_map_none. reflexivity.
Qed.


(** C3.  For a complete selection, [createLogicalDevice] hands
    [vkCreateDevice] one request per distinct family index among
    [graphicsFamily] and [presentFamily]: a single request when they are
    equal, two (in ascending order) when they differ; every request asks
    for one queue at priority 1.0. *)
Theorem createLogicalDevice_requests (drv : Driver)
  (s : HelloTriangleApplication) (indices : QueueFamilyIndices)
  (Hret : out (findQueueFamilies drv (physicalDevice s) s) = Ret indices)
  (Hcomplete : isComplete indices = true)
  (Hg : int_range (graphicsFamily indices))
  (Hp : int_range (presentFamily indices)) :
  let g := graphicsFamily indices in
  let p := presentFamily indices in
  let requests :=
    if g =? p then [single_queue_request g]
    else [single_queue_request (Z.min g p); single_queue_request (Z.max g p)] in
  queue_requests (calls (createLogicalDevice drv s)) = [requests] /\
  List.length requests = (if g =? p then 1%nat else 2%nat) /\
  Forall (fun r => dq_queueCount r = 1 /\ pQueuePriorities r = 1%Q) requests.
Proof.
  intros g p requests.
  apply findQueueFamilies_ret in Hret.
  apply isComplete_true in Hcomplete. unfold int_range in Hg, Hp.
  fold g in Hg, Hcomplete. fold p in Hp, Hcomplete.
  assert (Hreq : queueCreateInfos_loop 1%Q (std_set [g; p]) [] = requests).
  { rewrite queueCreateInfos_loop_map, std_set_pair. unfold requests.
    destruct (g =? p); simpl; unfold single_queue_request;
      rewrite ?to_uint32_id by lia; reflexivity. }
  split; [|split].
  - rewrite createLogicalDevice_run. cbv zeta. rewrite Hret.
    fold g p. rewrite Hreq.
    destruct (createDeviceResult drv (physicalDevice s) requests);
      cbn [calls]; unfold queue_requests; rewrite collect_app;
      fold (queue_requests
              (findQueueFamilies_calls (physicalDevice s) (surface s)
                 (snd (resolve drv (physicalDevice s) s))));
      rewrite queue_requests_calls; reflexivity.
  - unfold requests. destruct (g =? p); reflexivity.
  - unfold requests. destruct (g =? p); repeat constructor.
Qed.

Lemma createLogicalDevice_requests_witness :
  queue_requests
    (calls (createLogicalDevice drv_last_both (set_physicalDevice 5 blank)))
  = [[single_queue_request 2]].
Proof.
  pose proof (createLogicalDevice_requests drv_last_both
                (set_physicalDevice 5 blank)
                {| graphicsFamily := 2; presentFamily := 2 |}
                eq_refl eq_refl) as H.
  apply H; unfold int_range; simpl; lia.
Defined.

(** [createLogicalDevice] never assigns [graphicsQueue]. *)
Lemma createLogicalDevice_graphicsQueue (drv : Driver)
  (s : HelloTriangleApplication) :
  graphicsQueue (app (createLogicalDevice drv s)) = graphicsQueue s.
Proof.
  rewrite createLogicalDevice_run. cbv zeta.
  destruct (createDeviceResult drv _ _); reflexivity.
Qed.

(** C5, on the code.  For the adapter with family 0 graphics-only and
    family 1 present-only the selection is (0, 1) and the device is
    created, but the only queue asked of [vkGetDeviceQueue] is (family 1,
    index 0): the queue of the graphics family 0 is never retrieved and
    [graphicsQueue] keeps the value it had. *)
Theorem createLogicalDevice_retrieves_present_queue_only :
  out (findQueueFamilies drv_GP 5 picked_GP)
  = Ret {| graphicsFamily := 0; presentFamily := 1 |} /\
  out (createLogicalDevice drv_GP picked_GP) = Ret tt /\
  queues_retrieved (calls (createLogicalDevice drv_GP picked_GP)) = [(1, 0)] /\
  ~ In (0, 0) (queues_retrieved (calls (createLogicalDevice drv_GP picked_GP))) /\
  presentQueue (app (createLogicalDevice drv_GP picked_GP))
  = deviceQueue drv_GP 44 1 0 /\
  graphicsQueue (app (createLogicalDevice drv_GP picked_GP))
  = graphicsQueue picked_GP.
Proof.
  repeat split.
  intros [H | []]. discriminate H.
Qed.

(** ** The lifecycle *)

Section Lifecycle.

Variable drv : Driver.

Lemma set_physicalDevice_same (s : HelloTriangleApplication) :
  set_physicalDevice (physicalDevice s) s = s.
Proof. destruct s; reflexivity. Qed.

Lemma initWindow_run (s : HelloTriangleApplication) :
  initWindow drv s
  = mkResult (Ret tt) (set_window (createWindow drv WIDTH HEIGHT "Vulkan") s)
      [glfwInit; glfwWindowHint GLFW_CLIENT_API_NO_API;
       glfwWindowHint GLFW_RESIZABLE_FALSE;
       glfwCreateWindow WIDTH HEIGHT "Vulkan"
         (createWindow drv WIDTH HEIGHT "Vulkan")].
Proof. reflexivity. Qed.

Lemma createInstance_run (s : HelloTriangleApplication) :
  let exts := requiredInstanceExtensions drv in
  createInstance drv s
  = match createInstanceResult drv exts with
    | Some h =>
        mkResult (Ret tt) (set_instance h s)
          [glfwGetRequiredInstanceExtensions; vkCreateInstance exts (Some h)]
    | None =>
        mkResult (Throw (RuntimeError "failed to create instance!")) s
          [glfwGetRequiredInstanceExtensions; vkCreateInstance exts None]
    end.
Proof.
  cbv zeta. unfold createInstance, bind, emit. cbn [out app calls].
  destruct (createInstanceResult drv (requiredInstanceExtensions drv));
    reflexivity.
Qed.

Lemma createSurface_run (s : HelloTriangleApplication) :
  createSurface drv s
  = match createWindowSurfaceResult drv (instance s) (window s) with
    | Some h =>
        mkResult (Ret tt) (set_surface h s)
          [glfwCreateWindowSurface (instance s) (window s) (Some h)]
    | None =>
        mkResult (Throw (RuntimeError "failed to create window surface!")) s
          [glfwCreateWindowSurface (instance s) (window s) None]
    end.
Proof.
  unfold createSurface, bind, member, emit. cbn [out app calls].
  destruct (createWindowSurfaceResult drv (instance s) (window s));
    reflexivity.
Qed.

Lemma cleanup_run (s : HelloTriangleApplication) :
  cleanup s
  = mkResult (Ret tt) s
      [vkDestroyDevice (device s);
       vkDestroySurfaceKHR (instance s) (surface s);
       vkDestroyInstance (instance s);
       glfwDestroyWindow (window s);
       glfwTerminate].
Proof. reflexivity. Qed.

(** [pickPhysicalDevice] makes only neutral calls, ends (it has no event
    loop) and touches no member but [physicalDevice]. *)
Lemma pickPhysicalDevice_summary (s : HelloTriangleApplication) :
  let r := pickPhysicalDevice drv s in
  Forall neutral (calls r) /\ out r <> Running /\
  exists pd, app r = set_physicalDevice pd s.
Proof.
  cbv zeta.
  destruct (physicalDevices drv (instance s)) as [|d ds] eqn:E.
  - unfold pickPhysicalDevice, bind, member, emit. cbn [out app calls].
    rewrite E. cbn. split; [|split].
    + repeat constructor.
    + discriminate.
    + exists (physicalDevice s). symmetry. apply set_physicalDevice_same.
  - assert (Hne : physicalDevices drv (instance s) <> [])
      by (rewrite E; discriminate).
    rewrite (pickPhysicalDevice_unfold drv s Hne). cbn [out app calls].
    destruct (pickPhysicalDevice_loop_any drv
                (physicalDevices drv (instance s)) s) as (_ & Hn & Ha).
    split; [|split].
    + repeat (constructor; [split; reflexivity|]). exact Hn.
    + destruct (physicalDevice _ =? VK_NULL_HANDLE); discriminate.
    + destruct Ha as [-> | [pd [_ ->]]]; [|eauto].
      exists (physicalDevice s). symmetry. apply set_physicalDevice_same.
Qed.

(** [createLogicalDevice] acquires the device handle or throws; it
    destroys nothing. *)
Lemma createLogicalDevice_summary (s : HelloTriangleApplication) :
  let r := createLogicalDevice drv s in
  releases (calls r) = [] /\
  ((exists h q,
       out r = Ret tt /\
       app r = set_presentQueue q (set_device h s) /\
       acquisitions (calls r) = [DeviceHandle h]) \/
   (exists e, out r = Throw e /\ acquisitions (calls r) = [])).
Proof.
  cbv zeta. rewrite createLogicalDevice_run. cbv zeta.
  set (queries := findQueueFamilies_calls _ _ _).
  assert (Hq : Forall neutral queries) by apply neutral_calls.
  destruct (createDeviceResult drv (physicalDevice s) _) as [h|];
    cbn [out app calls]; unfold releases, acquisitions; rewrite !collect_app;
    fold (releases queries); fold (acquisitions queries);
    rewrite (collect_neutral_released _ Hq), (collect_neutral_acquired _ Hq).
  - split; [reflexivity|]. left. eauto.
  - split; [reflexivity|]. right. eauto.
Qed.

(** The event loop only polls: it acquires and destroys nothing, leaves the
    object alone and does not throw. *)
Lemma mainLoop_from_summary (fuel : nat) :
  forall (n : nat) (s : HelloTriangleApplication),
    let r := mainLoop_from drv fuel n s in
    app r = s /\ Forall neutral (calls r) /\
    (out r = Ret tt \/ out r = Running).
Proof.
  induction fuel as [|fuel IH]; intros n s; cbv zeta;
    cbn [mainLoop_from].
  - cbn. auto.
  - unfold bind, member, emit. cbn [out app calls].
    destruct (windowShouldClose drv (window s) n); cbn [ret out app calls].
    + split; [reflexivity|]. split; [|left; reflexivity].
      repeat constructor.
    + destruct (IH (S n) s) as (Ha & Hn & Ho).
      cbn [List.app].
      split; [exact Ha|]. split; [|exact Ho].
      constructor; [split; reflexivity|].
      constructor; [split; reflexivity|]. exact Hn.
Qed.

(** Once the window asks to close, enough fuel lets the loop return. *)
Lemma mainLoop_from_returns (k : nat) :
  forall (n fuel : nat) (s : HelloTriangleApplication),
    windowShouldClose drv (window s) (n + k) = true ->
    (k < fuel)%nat ->
    out (mainLoop_from drv fuel n s) = Ret tt.
Proof.
  induction k as [|k IH]; intros n fuel s Hclose Hfuel;
    (destruct fuel as [|fuel]; [lia|]); cbn [mainLoop_from];
    unfold bind, member, emit; cbn [out app calls].
  - rewrite Nat.add_0_r in Hclose. rewrite Hclose. reflexivity.
  - destruct (windowShouldClose drv (window s) n); [reflexivity|].
    cbn [out app calls].
    rewrite (IH (S n) fuel s); [reflexivity | | lia].
    rewrite <- Hclose. f_equal. lia.
Qed.

End Lifecycle.

(** ** The whole run *)

Lemma acquisitions_app (t1 t2 : list Call) :
  acquisitions (t1 ++ t2) = acquisitions t1 ++ acquisitions t2.
Proof. apply collect_app. Qed.

Lemma releases_app (t1 t2 : list Call) :
  releases (t1 ++ t2) = releases t1 ++ releases t2.
Proof. apply collect_app. Qed.

Section Run.

Variable drv : Driver.

(** [initVulkan] destroys nothing; when it returns it has acquired the
    instance, the surface and the device, in that order. *)
Lemma initVulkan_summary (s : HelloTriangleApplication) :
  let r := initVulkan drv s in
  releases (calls r) = [] /\ out r <> Running /\
  ((exists i sf d pd q,
       out r = Ret tt /\
       acquisitions (calls r)
       = [InstanceHandle i; SurfaceHandle sf; DeviceHandle d] /\
       app r = set_presentQueue q (set_device d (set_physicalDevice pd
                 (set_surface sf (set_instance i s))))) \/
   (exists e, out r = Throw e)).
Proof.
  cbv zeta. unfold initVulkan. cbv beta zeta delta [bind].
  rewrite createInstance_run. cbv zeta.
  destruct (createInstanceResult drv (requiredInstanceExtensions drv)) as [i|];
    cbn [out app calls].
  2: { split; [reflexivity|]. split; [discriminate|]. right. eauto. }
  rewrite createSurface_run.
  destruct (createWindowSurfaceResult drv _ _) as [sf|]; cbn [out app calls].
  2: { split; [reflexivity|]. split; [discriminate|]. right. eauto. }
  set (s2 := set_surface sf (set_instance i s)).
  destruct (pickPhysicalDevice_summary drv s2) as (Hn & Hr & [pd Ha]).
  pose proof (collect_neutral_released _ Hn) as Hrel.
  pose proof (collect_neutral_acquired _ Hn) as Hacq.
  destruct (out (pickPhysicalDevice drv s2)) as [[]|e|] eqn:Eo;
    cbn [out app calls]; rewrite ?releases_app, ?acquisitions_app, ?Hrel, ?Hacq.
  - rewrite Ha.
    destruct (createLogicalDevice_summary drv (set_physicalDevice pd s2))
      as (Hrel' & [(d & q & Ho & Hs & Hacq') | (e & Ho & Hacq')]);
      rewrite Hrel', Hacq', Ho.
    + split; [reflexivity|]. split; [discriminate|]. left.
      exists i, sf, d, pd, q. repeat split. exact Hs.
    + split; [reflexivity|]. split; [discriminate|]. right. eauto.
  - split; [reflexivity|]. split; [discriminate|]. right. eauto.
  - contradiction.
Qed.

(** The shape of every run: either it returns, having acquired window,
    instance, surface and device and destroyed them in the opposite order,
    or it does not return and has destroyed nothing. *)
Lemma run_shape (fuel : nat) (s : HelloTriangleApplication) :
  let r := run drv fuel s in
  let w := createWindow drv WIDTH HEIGHT "Vulkan" in
  match out r with
  | Ret _ =>
      exists i sf d,
        acquisitions (calls r)
        = [WindowHandle w; InstanceHandle i; SurfaceHandle sf; DeviceHandle d] /\
        releases (calls r)
        = [DeviceHandle d; SurfaceHandle sf; InstanceHandle i; WindowHandle w]
  | _ =>
      releases (calls r) = [] /\
      exists rest, acquisitions (calls r) = WindowHandle w :: rest
  end.
Proof.
  cbv zeta. unfold run. cbv beta zeta delta [bind].
  rewrite initWindow_run. cbn [out app calls].
  set (w := createWindow drv WIDTH HEIGHT "Vulkan").
  set (s1 := set_window w s).
  destruct (initVulkan_summary s1)
    as (Hrel & Hrun & [(i & sf & d & pd & q & Ho & Hacq & Hs) | (e & Ho)]);
    rewrite Ho; cbn [out app calls].
  - rewrite Hs.
    set (s4 := set_presentQueue q _).
    destruct (mainLoop_from_summary drv fuel O s4) as (Ha & Hn & Hout).
    fold (mainLoop drv fuel) in Ha, Hn, Hout.
    pose proof (collect_neutral_released _ Hn) as Hrel'.
    pose proof (collect_neutral_acquired _ Hn) as Hacq'.
    destruct Hout as [Hout | Hout]; rewrite Hout; cbn [out app calls].
    + rewrite Ha, cleanup_run. cbn [out app calls].
      exists i, sf, d.
      rewrite !acquisitions_app, !releases_app, Hrel, Hacq, Hrel', Hacq'.
      split; reflexivity.
    + rewrite !acquisitions_app, !releases_app, Hrel, Hacq, Hrel', Hacq'.
      split; [reflexivity|]. eexists. reflexivity.
  - rewrite !acquisitions_app, !releases_app, Hrel.
    split; [reflexivity|]. eexists. reflexivity.
Qed.

End Run.

Lemma main_success (drv : Driver) (fuel : nat) (junk : HelloTriangleApplication) :
  exit_status (main drv fuel junk) = Some EXIT_SUCCESS ->
  out (run drv fuel (construct junk)) = Ret tt /\
  api_calls (main drv fuel junk) = calls (run drv fuel (construct junk)).
Proof.
  unfold main.
  destruct (out (run drv fuel (construct junk))) as [[]|e|]; cbn;
    intros H; try discriminate H.
  split; reflexivity.
Qed.

(** C4.  In every run that succeeds the handles are acquired in the order
    window, instance, surface, device, and [cleanup] destroys them in
    exactly the reverse order: device, surface, instance, window. *)
Theorem teardown_reverses_acquisition (drv : Driver) (fuel : nat)
  (junk : HelloTriangleApplication)
  (Hok : exit_status (main drv fuel junk) = Some EXIT_SUCCESS) :
  let t := api_calls (main drv fuel junk) in
  (exists w i sf d,
      acquisitions t
      = [WindowHandle w; InstanceHandle i; SurfaceHandle sf; DeviceHandle d] /\
      releases t
      = [DeviceHandle d; SurfaceHandle sf; InstanceHandle i; WindowHandle w]) /\
  releases t = rev (acquisitions t).
Proof.
  destruct (main_success drv fuel junk Hok) as [Hret Hcalls].
  cbv zeta. rewrite Hcalls.
  pose proof (run_shape drv fuel (construct junk)) as H. cbv zeta in H.
  rewrite Hret in H. destruct H as (i & sf & d & Hacq & Hrel).
  split.
  - exists (createWindow drv WIDTH HEIGHT "Vulkan"), i, sf, d. auto.
  - rewrite Hacq, Hrel. reflexivity.
Qed.

Lemma teardown_reverses_acquisition_witness :
  releases (api_calls (main drv_session 5 blank))
  = rev (acquisitions (api_calls (main drv_session 5 blank))) /\
  releases (api_calls (main drv_session 5 blank))
  = [DeviceHandle 44; SurfaceHandle 33; InstanceHandle 22; WindowHandle 11].
Proof.
  split.
  - apply (teardown_reverses_acquisition drv_session 5 blank). reflexivity.
  - reflexivity.
Defined.

(** A run that ends in an exception has destroyed nothing, although it had
    at least the window. *)
Lemma failed_run_releases_nothing (drv : Driver) (fuel : nat)
  (s : HelloTriangleApplication) (e : runtime_error) :
  out (run drv fuel s) = Throw e ->
  releases (calls (run drv fuel s)) = [] /\
  acquisitions (calls (run drv fuel s)) <> [].
Proof.
  intros Hthrow.
  pose proof (run_shape drv fuel s) as H. cbv zeta in H.
  rewrite Hthrow in H. destruct H as [Hrel [rest Hacq]].
  split; [exact Hrel|]. rewrite Hacq. discriminate.
Qed.

(** C6, on the code.  With a driver that creates the instance and the
    surface but enumerates no adapter, [main] reports the failure and exits
    with [EXIT_FAILURE]; window, instance and surface were acquired and not
    one of them is destroyed: [cleanup] is reached on the successful path
    only. *)
Theorem failed_init_leaks_handles :
  exit_status (main drv_no_adapter 5 blank) = Some EXIT_FAILURE /\
  cerr (main drv_no_adapter 5 blank) = [what NoAdaptersFoundError] /\
  acquisitions (api_calls (main drv_no_adapter 5 blank))
  = [WindowHandle 11; InstanceHandle 22; SurfaceHandle 33] /\
  releases (api_calls (main drv_no_adapter 5 blank)) = [].
Proof.
  repeat split.
Qed.

(* ================================================================= *)
(** * Further properties of the code *)

(** ** More on [findQueueFamilies] *)

(** X1.  Whatever the adapter, each field of the returned selection is
    either the sentinel -1 or the index of an existing family that passes
    that field's test (a queue and the graphics bit, resp. a queue and
    present support). *)
Theorem findQueueFamilies_fields_valid (drv : Driver) (dev : Handle)
  (s : HelloTriangleApplication) :
  exists indices,
    out (findQueueFamilies drv dev s) = Ret indices /\
    (graphicsFamily indices = -1 \/
     (0 <= graphicsFamily indices < Z.of_nat (family_count drv dev) /\
      graphics_at drv dev (graphicsFamily indices) = true)) /\
    (presentFamily indices = -1 \/
     (0 <= presentFamily indices < Z.of_nat (family_count drv dev) /\
      present_at drv dev (surface s) (presentFamily indices) = true)).
Proof.
  exists (fst (resolve drv dev s)).
  split; [rewrite findQueueFamilies_run; reflexivity|].
  destruct (resolve_inv drv dev s) as (Hn & Hg & Hp & _ & _).
  split.
  - destruct Hg as [[Hg _] | (Rg & Gg & _)]; [left; exact Hg|].
    right. split; [lia | exact Gg].
  - destruct Hp as [[Hp _] | (Rp & Gp & _)]; [left; exact Hp|].
    right. split; [lia | exact Gp].
Qed.

(** X2.  When the returned selection is incomplete the scan has queried
    every family, in index order, and each field holds the highest index
    in the whole array that passes its test, or -1 when no family passes
    it; at least one field is -1. *)
Theorem incomplete_scan_exhaustive (drv : Driver) (dev : Handle)
  (s : HelloTriangleApplication) (indices : QueueFamilyIndices)
  (Hret : out (findQueueFamilies drv dev s) = Ret indices)
  (Hinc : isComplete indices = false) :
  examined_families (calls (findQueueFamilies drv dev s))
  = Zseq 0 (family_count drv dev) /\
  ((graphicsFamily indices = -1 /\ ~ has_graphics_family drv dev) \/
   (graphics_at drv dev (graphicsFamily indices) = true /\
    forall j, graphicsFamily indices < j -> graphics_at drv dev j = false)) /\
  ((presentFamily indices = -1 /\ ~ has_present_family drv dev (surface s)) \/
   (present_at drv dev (surface s) (presentFamily indices) = true /\
    forall j, presentFamily indices < j ->
              present_at drv dev (surface s) j = false)) /\
  (graphicsFamily indices = -1 \/ presentFamily indices = -1).
Proof.
  apply findQueueFamilies_ret in Hret. subst indices.
  destruct (resolve_inv drv dev s) as (Hn & Hg & Hp & Hall & _).
  specialize (Hall Hinc). rewrite Hall in Hg, Hp.
  apply isComplete_false in Hinc.
  split; [|split; [|split]].
  - rewrite findQueueFamilies_run. cbn [calls].
    rewrite examined_families_calls, Hall. reflexivity.
  - destruct Hg as [[Hg Ng] | (Rg & Gg & Ng)]; [left | right].
    + split; [exact Hg|]. rewrite has_graphics_family_iff. intros [j Hj].
      pose proof (graphics_at_range _ _ _ Hj) as R.
      rewrite Ng in Hj; [discriminate | exact R].
    + split; [exact Gg|]. intros j Hj.
      destruct (graphics_at drv dev j) eqn:E; [|reflexivity].
      pose proof (graphics_at_range _ _ _ E) as R.
      rewrite Ng in E; [discriminate | lia].
  - destruct Hp as [[Hp Np] | (Rp & Gp & Np)]; [left | right].
    + split; [exact Hp|]. rewrite has_present_family_iff. intros [j Hj].
      pose proof (present_at_range _ _ _ _ Hj) as R.
      rewrite Np in Hj; [discriminate | exact R].
    + split; [exact Gp|]. intros j Hj.
      destruct (present_at drv dev (surface s) j) eqn:E; [|reflexivity].
      pose proof (present_at_range _ _ _ _ E) as R.
      rewrite Np in E; [discriminate | lia].
  - destruct Hg as [[Hg _] | (Rg & _)]; [left; exact Hg|].
    destruct Hp as [[Hp _] | (Rp & _)]; [right; exact Hp|].
    lia.
Qed.

Lemma incomplete_scan_exhaustive_witness :
  examined_families (calls (findQueueFamilies drv_no_present 5 blank))
  = [0; 1; 2] /\
  ((2 = -1 /\ ~ has_graphics_family drv_no_present 5) \/
   (graphics_at drv_no_present 5 2 = true /\
    forall j, 2 < j -> graphics_at drv_no_present 5 j = false)) /\
  ((-1 = -1 /\ ~ has_present_family drv_no_present 5 (surface blank)) \/
   (present_at drv_no_present 5 (surface blank) (-1) = true /\
    forall j, -1 < j -> present_at drv_no_present 5 (surface blank) j = false)) /\
  (2 = -1 \/ -1 = -1).
Proof.
  exact (incomplete_scan_exhaustive drv_no_present 5 blank
           {| graphicsFamily := 2; presentFamily := -1 |} eq_refl eq_refl).
Defined.

(** ** More on [pickPhysicalDevice] *)

(** Either no adapter of a list yields a complete selection, or the list
    splits at the first one that does. *)
Lemma first_suitable_split (drv : Driver) (s : HelloTriangleApplication)
  (l : list Handle) :
  (forall x, In x l -> complete_selection drv s x = false) \/
  (exists pre d post,
      l = pre ++ d :: post /\
      (forall x, In x pre -> complete_selection drv s x = false) /\
      complete_selection drv s d = true).
Proof.
  induction l as [|x l IH].
  - left. intros x [].
  - destruct (complete_selection drv s x) eqn:E.
    + right. exists [], x, l. split; [reflexivity|].
      split; [intros y [] | exact E].
    + destruct IH as [IH | (pre & d & post & Hl & Hpre & Hd)].
      * left. intros y [<- | Hy]; [exact E | apply IH; exact Hy].
      * right. exists (x :: pre), d, post. subst l.
        split; [reflexivity|]. split; [|exact Hd].
        intros y [<- | Hy]; [exact E | apply Hpre; exact Hy].
Qed.

(** A normal return on a fresh object, taken apart. *)
Lemma pickPhysicalDevice_ret_split (drv : Driver)
  (s : HelloTriangleApplication)
  (Hfresh : physicalDevice s = VK_NULL_HANDLE)
  (Hok : out (pickPhysicalDevice drv s) = Ret tt) :
  exists pre d post,
    physicalDevices drv (instance s) = pre ++ d :: post /\
    (forall x, In x pre -> complete_selection drv s x = false) /\
    complete_selection drv s d = true /\
    physicalDevice (app (pickPhysicalDevice drv s)) = d /\
    d <> VK_NULL_HANDLE.
Proof.
  destruct (physicalDevices drv (instance s)) as [|d0 ds] eqn:E.
  - exfalso. unfold pickPhysicalDevice, bind, member, emit in Hok.
    cbn [out app calls] in Hok. rewrite E in Hok. discriminate Hok.
  - assert (Hne : physicalDevices drv (instance s) <> [])
      by (rewrite E; discriminate).
    rewrite (pickPhysicalDevice_unfold drv s Hne) in Hok |- *.
    rewrite E in Hok |- *. cbn [out app] in Hok |- *.
    destruct (first_suitable_split drv s (d0 :: ds))
      as [Hall | (pre & d & post & Hl & Hpre & Hd)].
    + exfalso.
      pose proof (pickPhysicalDevice_loop_skip drv (d0 :: ds) [] s Hall) as H.
      cbv zeta in H. rewrite app_nil_r in H. destruct H as (_ & Ha & _).
      rewrite Ha in Hok. cbn [pickPhysicalDevice_loop ret app] in Hok.
      rewrite Hfresh in Hok. discriminate Hok.
    + exists pre, d, post. rewrite Hl in Hok |- *.
      destruct (pickPhysicalDevice_loop_skip drv pre (d :: post) s Hpre)
        as (_ & Ha & _).
      destruct (pickPhysicalDevice_loop_hit drv d post s Hd) as (_ & Ha' & _).
      rewrite Ha, Ha' in Hok |- *.
      cbn [physicalDevice set_physicalDevice] in Hok |- *.
      repeat (split; [first [reflexivity | assumption]|]).
      intros Hnull. rewrite Hnull in Hok. discriminate Hok.
Qed.

(** X3.  On a freshly constructed object, a normal return of
    [pickPhysicalDevice] means a suitable adapter was found: the
    enumeration splits as [pre ++ d :: post] with no adapter of [pre]
    yielding a complete selection, [d] yielding one, and [physicalDevice]
    is [d], a non-null handle. *)
Theorem pickPhysicalDevice_returns_suitable (drv : Driver)
  (s : HelloTriangleApplication)
  (Hfresh : physicalDevice s = VK_NULL_HANDLE)
  (Hok : out (pickPhysicalDevice drv s) = Ret tt) :
  exists pre d post,
    physicalDevices drv (instance s) = pre ++ d :: post /\
    (forall x, In x pre -> complete_selection drv s x = false) /\
    complete_selection drv s d = true /\
    physicalDevice (app (pickPhysicalDevice drv s)) = d /\
    d <> VK_NULL_HANDLE.
Proof.
  exact (pickPhysicalDevice_ret_split drv s Hfresh Hok).
Qed.

Lemma pickPhysicalDevice_returns_suitable_witness :
  exists pre d post,
    physicalDevices drv_three (instance blank) = pre ++ d :: post /\
    (forall x, In x pre -> complete_selection drv_three blank x = false) /\
    complete_selection drv_three blank d = true /\
    physicalDevice (app (pickPhysicalDevice drv_three blank)) = d /\
    d <> VK_NULL_HANDLE.
Proof.
  apply (pickPhysicalDevice_returns_suitable drv_three blank);
    reflexivity.
Defined.

(** X4.  The not-found test reads the member, not the loop: on an object
    whose [physicalDevice] is already non-null, a non-empty enumeration
    without a single suitable adapter makes [pickPhysicalDevice] return
    normally, the object unchanged, instead of throwing. *)
Theorem pickPhysicalDevice_keeps_earlier_choice (drv : Driver)
  (s : HelloTriangleApplication)
  (Hset : physicalDevice s <> VK_NULL_HANDLE)
  (Hne : physicalDevices drv (instance s) <> [])
  (Hall : forall x, In x (physicalDevices drv (instance s)) ->
                    complete_selection drv s x = false) :
  out (pickPhysicalDevice drv s) = Ret tt /\
  app (pickPhysicalDevice drv s) = s.
Proof.
  rewrite (pickPhysicalDevice_unfold drv s Hne).
  pose proof (pickPhysicalDevice_loop_skip drv
                (physicalDevices drv (instance s)) [] s Hall) as H.
  cbv zeta in H. rewrite app_nil_r in H. destruct H as (_ & Ha & _).
  cbn [out app]. rewrite Ha. cbn [pickPhysicalDevice_loop ret app].
  destruct (physicalDevice s =? VK_NULL_HANDLE) eqn:E;
    [apply Z.eqb_eq in E; contradiction|].
  split; reflexivity.
Qed.

Lemma pickPhysicalDevice_keeps_earlier_choice_witness :
  out (pickPhysicalDevice drv_unsuitable chosen_earlier) = Ret tt /\
  app (pickPhysicalDevice drv_unsuitable chosen_earlier) = chosen_earlier.
Proof.
  apply (pickPhysicalDevice_keeps_earlier_choice drv_unsuitable chosen_earlier).
  - discriminate.
  - discriminate.
  - intros x [<- | [<- | [<- | []]]]; reflexivity.
Defined.

(** X5.  Whatever the driver and the object, the adapters whose queue
    families [pickPhysicalDevice] asks for are an initial segment of the
    enumeration, in enumeration order, each asked twice (the count, then
    the array); it acquires and destroys nothing and no member other than
    [physicalDevice] changes. *)
Theorem pickPhysicalDevice_examines_prefix (drv : Driver)
  (s : HelloTriangleApplication) :
  (exists k,
      family_queries (calls (pickPhysicalDevice drv s))
      = twice (firstn k (physicalDevices drv (instance s)))) /\
  acquisitions (calls (pickPhysicalDevice drv s)) = [] /\
  releases (calls (pickPhysicalDevice drv s)) = [] /\
  exists pd, app (pickPhysicalDevice drv s) = set_physicalDevice pd s.
Proof.
  destruct (pickPhysicalDevice_summary drv s) as (Hn & _ & Ha).
  split; [|split; [apply collect_neutral_acquired; exact Hn|
                   split; [apply collect_neutral_released; exact Hn|exact Ha]]].
  destruct (physicalDevices drv (instance s)) as [|d0 ds] eqn:E.
  - exists O. unfold pickPhysicalDevice, bind, member, emit.
    cbn [out app calls]. rewrite E. reflexivity.
  - assert (Hne : physicalDevices drv (instance s) <> [])
      by (rewrite E; discriminate).
    rewrite (pickPhysicalDevice_unfold drv s Hne). rewrite E. cbn [calls].
    change (family_queries
              (vkEnumeratePhysicalDevices (instance s) false
               :: vkEnumeratePhysicalDevices (instance s) true
               :: calls (pickPhysicalDevice_loop drv (d0 :: ds) s)))
      with (family_queries
              (calls (pickPhysicalDevice_loop drv (d0 :: ds) s))).
    destruct (first_suitable_split drv s (d0 :: ds))
      as [Hall | (pre & d & post & Hl & Hpre & Hd)].
    + exists (List.length (d0 :: ds)).
      pose proof (pickPhysicalDevice_loop_skip drv (d0 :: ds) [] s Hall) as H.
      cbv zeta in H. rewrite app_nil_r in H. destruct H as (_ & _ & He).
      rewrite He. cbn [pickPhysicalDevice_loop ret calls].
      rewrite firstn_all. apply app_nil_r.
    + exists (List.length (pre ++ [d])). rewrite Hl.
      destruct (pickPhysicalDevice_loop_skip drv pre (d :: post) s Hpre)
        as (_ & _ & He).
      destruct (pickPhysicalDevice_loop_hit drv d post s Hd) as (_ & _ & He').
      rewrite He, He'.
      replace (pre ++ d :: post) with ((pre ++ [d]) ++ post)
        by (rewrite <- app_assoc; reflexivity).
      rewrite firstn_app, firstn_all, Nat.sub_diag. cbn [firstn].
      rewrite app_nil_r, twice_app. reflexivity.
Qed.

(** ** More on [createLogicalDevice] *)



(** X7.  [createLogicalDevice] does not test the selection for
    completeness: whatever [findQueueFamilies] returns, [vkCreateDevice] is
    called once, with one request per distinct field value in ascending
    order, the value converted to [uint32_t].  For an adapter without any
    queue family that is a single request for family 4294967295. *)
Theorem createLogicalDevice_requests_any (drv : Driver)
  (s : HelloTriangleApplication) :
  exists indices,
    out (findQueueFamilies drv (physicalDevice s) s) = Ret indices /\
    queue_requests (calls (createLogicalDevice drv s))
    = [map (fun f => single_queue_request (to_uint32 f))
           (if graphicsFamily indices =? presentFamily indices
            then [graphicsFamily indices]
            else [Z.min (graphicsFamily indices) (presentFamily indices);
                  Z.max (graphicsFamily indices) (presentFamily indices)])] /\
    (queueFamilyProperties drv (physicalDevice s) = [] ->
     queue_requests (calls (createLogicalDevice drv s))
     = [[single_queue_request 4294967295]]).
Proof.
  exists (fst (resolve drv (physicalDevice s) s)).
  split; [rewrite findQueueFamilies_run; reflexivity|].
  assert (Hq : forall infos ret0 more,
             queue_requests
               (findQueueFamilies_calls (physicalDevice s) (surface s)
                  (snd (resolve drv (physicalDevice s) s))
                ++ vkCreateDevice (physicalDevice s) infos ret0 :: more)
             = infos :: queue_requests more).
  { intros infos ret0 more. unfold queue_requests. rewrite collect_app.
    fold (queue_requests
            (findQueueFamilies_calls (physicalDevice s) (surface s)
               (snd (resolve drv (physicalDevice s) s)))).
    rewrite queue_requests_calls. reflexivity. }
  assert (Hgen : queue_requests (calls (createLogicalDevice drv s))
            = [queueCreateInfos_loop 1%Q
                 (std_set [graphicsFamily (fst (resolve drv (physicalDevice s) s));
                           presentFamily (fst (resolve drv (physicalDevice s) s))])
                 []]).
  { rewrite createLogicalDevice_run. cbv zeta.
    destruct (createDeviceResult drv (physicalDevice s) _);
      cbn [calls]; rewrite Hq; reflexivity. }
  split.
  - rewrite Hgen, queueCreateInfos_loop_map, std_set_pair. reflexivity.
  - intros Hnil. rewrite Hgen. unfold resolve. rewrite Hnil. reflexivity.
Qed.

Lemma createLogicalDevice_requests_any_witness :
  queueFamilyProperties drv_no_family (physicalDevice picked_GP) = [] /\
  queue_requests (calls (createLogicalDevice drv_no_family picked_GP))
  = [[single_queue_request 4294967295]].
Proof.
  split; [reflexivity|].
  destruct (createLogicalDevice_requests_any drv_no_family picked_GP)
    as (indices & _ & _ & H).
  apply H. reflexivity.
Defined.



(** ** More on [mainLoop] *)

Section EventLoop.

Variable drv : Driver.

Lemma mainLoop_from_polls (k : nat) :
  forall (n fuel : nat) (s : HelloTriangleApplication),
    (forall m, (m < k)%nat -> windowShouldClose drv (window s) (n + m) = false) ->
    windowShouldClose drv (window s) (n + k) = true ->
    (k < fuel)%nat ->
    mainLoop_from drv fuel n s
    = mkResult (Ret tt) s (mainLoop_calls (window s) k).
Proof.
  induction k as [|k IH]; intros n fuel s Hopen Hclose Hfuel;
    (destruct fuel as [|fuel]; [lia|]); cbn [mainLoop_from];
    unfold bind, member, emit; cbn [out app calls].
  - rewrite Nat.add_0_r in Hclose. rewrite Hclose. reflexivity.
  - pose proof (Hopen O ltac:(lia)) as H0. rewrite Nat.add_0_r in H0.
    rewrite H0. cbn [out app calls].
    rewrite (IH (S n) fuel s); [reflexivity | | | lia].
    + intros m Hm. rewrite <- (Hopen (S m)) by lia. f_equal. lia.
    + rewrite <- Hclose. f_equal. lia.
Qed.

Lemma mainLoop_from_running (fuel : nat) :
  forall (n : nat) (s : HelloTriangleApplication),
    (forall m, (m < fuel)%nat ->
               windowShouldClose drv (window s) (n + m) = false) ->
    out (mainLoop_from drv fuel n s) = Running.
Proof.
  induction fuel as [|fuel IH]; intros n s Hopen; cbn [mainLoop_from].
  - reflexivity.
  - unfold bind, member, emit; cbn [out app calls].
    pose proof (Hopen O ltac:(lia)) as H0. rewrite Nat.add_0_r in H0.
    rewrite H0. cbn [out app calls].
    rewrite (IH (S n) s); [reflexivity|].
    intros m Hm. rewrite <- (Hopen (S m)) by lia. f_equal. lia.
Qed.

End EventLoop.

(** X9.  If the window first asks to close at call [k] of
    [glfwWindowShouldClose], [mainLoop] returns (for any fuel above [k])
    after exactly [k] rounds of test-then-poll followed by the final test;
    the object is unchanged. *)
Theorem mainLoop_polls_until_close (drv : Driver)
  (s : HelloTriangleApplication) (k fuel : nat)
  (Hopen : forall m, (m < k)%nat -> windowShouldClose drv (window s) m = false)
  (Hclose : windowShouldClose drv (window s) k = true)
  (Hfuel : (k < fuel)%nat) :
  mainLoop drv fuel s = mkResult (Ret tt) s (mainLoop_calls (window s) k).
Proof.
  unfold mainLoop. apply mainLoop_from_polls; assumption.
Qed.

Lemma mainLoop_polls_until_close_witness :
  mainLoop drv_session 3 blank
  = mkResult (Ret tt) blank
      [glfwWindowShouldClose 0; glfwPollEvents;
       glfwWindowShouldClose 0; glfwPollEvents;
       glfwWindowShouldClose 0].
Proof.
  apply (mainLoop_polls_until_close drv_session blank 2 3).
  - intros m Hm. destruct m as [|[|m]]; [reflexivity | reflexivity | lia].
  - reflexivity.
  - lia.
Defined.

(** X10.  [mainLoop] returns within the fuel exactly when the window asks
    to close at one of the first [fuel] tests; otherwise it is still
    running.  It never throws. *)
Theorem mainLoop_returns_iff (drv : Driver) (s : HelloTriangleApplication)
  (fuel : nat) :
  (out (mainLoop drv fuel s) = Ret tt <->
   exists k, (k < fuel)%nat /\ windowShouldClose drv (window s) k = true) /\
  (out (mainLoop drv fuel s) = Running <->
   forall k, (k < fuel)%nat -> windowShouldClose drv (window s) k = false) /\
  (forall e, out (mainLoop drv fuel s) <> Throw e).
Proof.
  assert (Hdec : (exists k, (k < fuel)%nat /\
                            windowShouldClose drv (window s) k = true) \/
                 (forall k, (k < fuel)%nat ->
                            windowShouldClose drv (window s) k = false)).
  { induction fuel as [|fuel IH].
    - right. intros k Hk. lia.
    - destruct IH as [[k [Hk Hc]] | IH].
      + left. exists k. split; [lia | exact Hc].
      + destruct (windowShouldClose drv (window s) fuel) eqn:E.
        * left. exists fuel. split; [lia | exact E].
        * right. intros k Hk.
          destruct (Nat.eq_dec k fuel) as [->|Hne]; [exact E|].
          apply IH. lia. }
  unfold mainLoop.
  destruct Hdec as [[k [Hk Hc]] | Hopen].
  - assert (Hret : out (mainLoop_from drv fuel 0 s) = Ret tt)
      by (apply (mainLoop_from_returns drv k); assumption).
    rewrite Hret. split; [|split].
    + split; [intros _; exists k; auto | reflexivity].
    + split; [discriminate|]. intros H. rewrite (H k Hk) in Hc. discriminate.
    + discriminate.
  - assert (Hrun : out (mainLoop_from drv fuel 0 s) = Running)
      by (apply mainLoop_from_running; exact Hopen).
    rewrite Hrun. split; [|split].
    + split; [discriminate|]. intros [k [Hk Hc]].
      rewrite (Hopen k Hk) in Hc. discriminate.
    + split; [intros _; exact Hopen | reflexivity].
    + discriminate.
Qed.

(** ** More on [run] and [main] *)

Lemma pickPhysicalDevice_throws (drv : Driver) (s : HelloTriangleApplication)
  (e : runtime_error) :
  out (pickPhysicalDevice drv s) = Throw e ->
  e = NoAdaptersFoundError \/ e = NoSuitableAdapterError.
Proof.
  destruct (physicalDevices drv (instance s)) as [|d0 ds] eqn:E.
  - unfold pickPhysicalDevice, bind, member, emit. cbn [out app calls].
    rewrite E. cbn. intros H. injection H as <-. left. reflexivity.
  - assert (Hne : physicalDevices drv (instance s) <> [])
      by (rewrite E; discriminate).
    rewrite (pickPhysicalDevice_unfold drv s Hne). cbn [out].
    destruct (physicalDevice _ =? VK_NULL_HANDLE); intros H;
      [injection H as <-; right; reflexivity | discriminate H].
Qed.

(** A failing [initVulkan]: the message thrown and what had been acquired. *)
Lemma initVulkan_failure (drv : Driver) (s : HelloTriangleApplication)
  (e : runtime_error) :
  out (initVulkan drv s) = Throw e ->
  In (what e) init_messages /\
  exists i sf,
    acquisitions (calls (initVulkan drv s)) = [] \/
    acquisitions (calls (initVulkan drv s)) = [InstanceHandle i] \/
    acquisitions (calls (initVulkan drv s))
    = [InstanceHandle i; SurfaceHandle sf].
Proof.
  unfold initVulkan. cbv beta zeta delta [bind].
  rewrite createInstance_run. cbv zeta.
  destruct (createInstanceResult drv (requiredInstanceExtensions drv)) as [i|];
    cbn [out app calls].
  2: { intros H. injection H as <-. split; [cbn; auto|].
       exists 0, 0. left. reflexivity. }
  rewrite createSurface_run.
  destruct (createWindowSurfaceResult drv _ _) as [sf|]; cbn [out app calls].
  2: { intros H. injection H as <-. split; [cbn; auto|].
       exists i, 0. right. left. reflexivity. }
  set (s2 := set_surface sf (set_instance i s)).
  destruct (pickPhysicalDevice_summary drv s2) as (Hn & Hr & [pd Ha]).
  pose proof (collect_neutral_acquired _ Hn) as Hacq.
  destruct (out (pickPhysicalDevice drv s2)) as [[]|e'|] eqn:Eo;
    cbn [out app calls]; rewrite ?acquisitions_app, ?Hacq.
  - rewrite Ha.
    destruct (createLogicalDevice_summary drv (set_physicalDevice pd s2))
      as (_ & [(d & q & Ho & _ & _) | (e' & Ho & Hacq')]);
      rewrite Ho; [discriminate|].
    rewrite Hacq'. intros H. injection H as <-.
    split.
    + rewrite createLogicalDevice_run in Ho. cbv zeta in Ho.
      destruct (createDeviceResult drv _ _); cbn [out] in Ho;
        [discriminate Ho|]. injection Ho as <-. cbn. auto 6.
    + exists i, sf. right. right. reflexivity.
  - intros H. injection H as <-. split.
    + destruct (pickPhysicalDevice_throws drv s2 e' Eo) as [-> | ->];
        cbn; auto 6.
    + exists i, sf. right. right. reflexivity.
  - contradiction.
Qed.

Section Outcome.

Variable drv : Driver.

(** The outcome of [run] is that of [initVulkan], unless the event loop is
    still running; the acquisitions are the window and those of
    [initVulkan]. *)
Lemma run_outcome (fuel : nat) (s : HelloTriangleApplication) :
  let w := createWindow drv WIDTH HEIGHT "Vulkan" in
  let v := initVulkan drv (set_window w s) in
  acquisitions (calls (run drv fuel s))
  = WindowHandle w :: acquisitions (calls v) /\
  match out v with
  | Ret _ => out (run drv fuel s) = out (mainLoop drv fuel (app v))
  | Throw e => out (run drv fuel s) = Throw e
  | Running => False
  end.
Proof.
  cbv zeta. unfold run. cbv beta zeta delta [bind].
  rewrite initWindow_run. cbn [out app calls].
  set (w := createWindow drv WIDTH HEIGHT "Vulkan").
  set (v := initVulkan drv (set_window w s)).
  destruct (initVulkan_summary drv (set_window w s)) as (_ & Hrun & _).
  fold v in Hrun.
  destruct (out v) as [[]|e|] eqn:Ev; cbn [out app calls].
  - destruct (mainLoop_from_summary drv fuel O (app v)) as (Ha & Hn & Hout).
    fold (mainLoop drv fuel) in Ha, Hn, Hout.
    pose proof (collect_neutral_acquired _ Hn) as Hacq.
    destruct Hout as [Hout | Hout]; rewrite Hout; cbn [out app calls];
      rewrite !acquisitions_app, ?Hacq; cbn; rewrite ?app_nil_r;
      split; reflexivity.
  - rewrite acquisitions_app. split; reflexivity.
  - contradiction.
Qed.

End Outcome.




(** X12.  A run that ends in an exception has made no destroying call at
    all; when [glfwCreateWindow] had returned a window (a non-null
    pointer), that window at least was acquired and is left undestroyed. *)
Theorem throwing_run_destroys_nothing (drv : Driver) (fuel : nat)
  (s : HelloTriangleApplication) (e : runtime_error)
  (Hthrow : out (run drv fuel s) = Throw e) :
  releases (calls (run drv fuel s)) = [] /\
  (createWindow drv WIDTH HEIGHT "Vulkan" <> VK_NULL_HANDLE ->
   exists rest,
     acquisitions (calls (run drv fuel s))
     = WindowHandle (createWindow drv WIDTH HEIGHT "Vulkan") :: rest /\
     ~ In (WindowHandle (createWindow drv WIDTH HEIGHT "Vulkan"))
          (releases (calls (run drv fuel s)))).
Proof.
  pose proof (run_shape drv fuel s) as H. cbv zeta in H.
  rewrite Hthrow in H. destruct H as [Hrel [rest Hacq]].
  split; [exact Hrel|]. intros _. exists rest.
  split; [exact Hacq | rewrite Hrel; intros []].
Qed.

Lemma throwing_run_destroys_nothing_witness :
  releases (calls (run drv_unsuitable 3 (construct blank))) = [] /\
  exists rest,
    acquisitions (calls (run drv_unsuitable 3 (construct blank)))
    = WindowHandle 11 :: rest /\
    ~ In (WindowHandle 11)
         (releases (calls (run drv_unsuitable 3 (construct blank)))).
Proof.
  destruct (throwing_run_destroys_nothing drv_unsuitable 3 (construct blank)
              NoSuitableAdapterError eq_refl) as [H1 H2].
  split; [exact H1|]. apply H2. discriminate.
Defined.

(** X13.  What [main] reports: a successful exit writes nothing to
    [std::cerr]; a failing exit writes exactly one line, one of the five
    messages of the initialisation; and the instance message is written
    exactly when [vkCreateInstance] does not succeed. *)
Theorem main_report (drv : Driver) (fuel : nat)
  (junk : HelloTriangleApplication) :
  ((exit_status (main drv fuel junk) = Some EXIT_SUCCESS /\
    cerr (main drv fuel junk) = []) \/
   (exit_status (main drv fuel junk) = Some EXIT_FAILURE /\
    exists m, cerr (main drv fuel junk) = [m] /\ In m init_messages) \/
   (exit_status (main drv fuel junk) = None /\
    cerr (main drv fuel junk) = [])) /\
  (cerr (main drv fuel junk) = ["failed to create instance!"] <->
   createInstanceResult drv (requiredInstanceExtensions drv) = None).
Proof.
  pose proof (run_outcome drv fuel (construct junk)) as H. cbv zeta in H.
  destruct H as [_ H].
  set (w := createWindow drv WIDTH HEIGHT "Vulkan") in *.
  set (v := initVulkan drv (set_window w (construct junk))) in *.
  split.
  - unfold main.
    destruct (out (run drv fuel (construct junk))) as [[]|e|] eqn:Er; cbn.
    + left. split; reflexivity.
    + right. left. split; [reflexivity|]. exists (what e).
      split; [reflexivity|].
      destruct (out v) as [[]|e'|] eqn:Ev; [| |contradiction].
      * exfalso.
        destruct (mainLoop_from_summary drv fuel O (app v)) as (_ & _ & Ho).
        fold (mainLoop drv fuel) in Ho.
        destruct Ho as [Ho | Ho]; rewrite Ho in H; discriminate H.
      * injection H as ->.
        apply (initVulkan_failure drv _ _ Ev).
    + right. right. split; reflexivity.
  - assert (Hv : out v
                 = Throw (RuntimeError "failed to create instance!") <->
                 createInstanceResult drv (requiredInstanceExtensions drv)
                 = None).
    { unfold v, initVulkan. cbv beta zeta delta [bind].
      rewrite createInstance_run. cbv zeta.
      destruct (createInstanceResult drv (requiredInstanceExtensions drv))
        as [i|]; cbn [out app calls]; [|split; reflexivity].
      split; [|discriminate]. intros Hc. exfalso.
      rewrite createSurface_run in Hc.
      destruct (createWindowSurfaceResult drv _ _) as [sf|];
        cbn [out app calls] in Hc; [|discriminate Hc].
      set (s2 := set_surface sf _) in Hc.
      destruct (out (pickPhysicalDevice drv s2)) as [[]|e'|] eqn:Eo;
        cbn [out app calls] in Hc.
      - rewrite createLogicalDevice_run in Hc. cbv zeta in Hc.
        destruct (createDeviceResult drv _ _); discriminate Hc.
      - injection Hc as ->.
        destruct (pickPhysicalDevice_throws drv s2 _ Eo); discriminate.
      - discriminate Hc. }
    rewrite <- Hv. unfold main.
    destruct (out v) as [[]|e'|] eqn:Ev; [| |contradiction].
    + destruct (mainLoop_from_summary drv fuel O (app v)) as (_ & _ & Ho).
      fold (mainLoop drv fuel) in Ho. rewrite H.
      destruct Ho as [Ho | Ho]; rewrite Ho; cbn; split; discriminate.
    + rewrite H. cbn. destruct e' as [m]. cbn.
      split; intros Hm; injection Hm as ->; reflexivity.
Qed.

(** The acquisitions of a run, however it ends. *)
Lemma run_acquisitions_prefix (drv : Driver) (fuel : nat)
  (s : HelloTriangleApplication) :
  exists i sf d,
    In (acquisitions (calls (run drv fuel s)))
       (acquisition_prefixes (createWindow drv WIDTH HEIGHT "Vulkan") i sf d).
Proof.
  pose proof (run_outcome drv fuel s) as H. cbv zeta in H.
  destruct H as [Hacq _]. rewrite Hacq.
  set (w := createWindow drv WIDTH HEIGHT "Vulkan").
  destruct (initVulkan_summary drv (set_window w s))
    as (_ & _ & [(i & sf & d & pd & q & _ & Ha & _) | (e & Ho)]).
  - exists i, sf, d. rewrite Ha. cbn. auto.
  - destruct (initVulkan_failure drv _ _ Ho) as (_ & i & sf & [Ha | [Ha | Ha]]);
      exists i, sf, 0; rewrite Ha; cbn; auto.
Qed.

(** X14.  Handles are always acquired in the same order: in a run in
    which [glfwCreateWindow] returned a window (a non-null pointer [w]),
    at any end of the run (return, exception, or loop still running) the
    acquisitions are the window [w] alone, or window and instance, or
    window, instance and surface, or all four with the device last. *)
Theorem acquisition_order (drv : Driver) (fuel : nat)
  (s : HelloTriangleApplication)
  (Hwin : createWindow drv WIDTH HEIGHT "Vulkan" <> VK_NULL_HANDLE) :
  exists w i sf d,
    w = createWindow drv WIDTH HEIGHT "Vulkan" /\
    w <> VK_NULL_HANDLE /\
    In (acquisitions (calls (run drv fuel s)))
       (acquisition_prefixes w i sf d).
Proof.
  destruct (run_acquisitions_prefix drv fuel s) as (i & sf & d & H).
  exists (createWindow drv WIDTH HEIGHT "Vulkan"), i, sf, d.
  split; [reflexivity|]. split; [exact Hwin | exact H].
Qed.

Lemma acquisition_order_witness :
  exists w i sf d,
    w = createWindow drv_unsuitable WIDTH HEIGHT "Vulkan" /\
    w <> VK_NULL_HANDLE /\
    In (acquisitions (calls (run drv_unsuitable 3 (construct blank))))
       (acquisition_prefixes w i sf d).
Proof.
  apply (acquisition_order drv_unsuitable 3 (construct blank)).
  discriminate.
Defined.

(** ** Handles are used while they are live *)

Lemma live_of (b : list Call) (r : Resource) :
  releases b = [] -> In r (acquisitions b) -> live b r.
Proof. intros Hrel Hin. split; [exact Hin | rewrite Hrel; intros []]. Qed.

Lemma live_neutral (b t : list Call) (r : Resource) :
  Forall neutral t -> live b r -> live (b ++ t) r.
Proof.
  intros Hn [Ha Hr]. unfold live.
  rewrite acquisitions_app, releases_app.
  rewrite (collect_neutral_acquired _ Hn), (collect_neutral_released _ Hn).
  rewrite !app_nil_r. split; assumption.
Qed.

Lemma safe_from_app (t1 : list Call) :
  forall b t2,
    safe_from b (t1 ++ t2) <-> safe_from b t1 /\ safe_from (b ++ t1) t2.
Proof.
  induction t1 as [|c t1 IH]; intros b t2; cbn [safe_from List.app].
  - rewrite app_nil_r. tauto.
  - rewrite IH. replace ((b ++ [c]) ++ t1) with (b ++ c :: t1)
      by (rewrite <- app_assoc; reflexivity).
    tauto.
Qed.

Lemma quiet_using_neutral (H : list Resource) (t : list Call) :
  quiet_using H t -> Forall neutral t.
Proof. apply Forall_impl. intros c [Hn _]. exact Hn. Qed.

Lemma quiet_using_incl (H H' : list Resource) (t : list Call) :
  incl H H' -> quiet_using H t -> quiet_using H' t.
Proof.
  intros Hi. apply Forall_impl. intros c [Hn Hu].
  split; [exact Hn | intros r Hr; apply Hi, Hu, Hr].
Qed.

Lemma safe_from_quiet (H : list Resource) (t : list Call) :
  quiet_using H t ->
  forall b, (forall r, In r H -> live b r) -> safe_from b t.
Proof.
  induction 1 as [|c t [Hn Hu] _ IH]; intros b Hlive; cbn [safe_from].
  - exact I.
  - split; [intros r Hr; apply Hlive, Hu, Hr|].
    apply IH. intros r Hr. apply live_neutral; [|apply Hlive, Hr].
    constructor; [exact Hn | constructor].
Qed.

(** What [safe_from] says, call by call. *)
Lemma safe_from_sound (t : list Call) :
  forall b, safe_from b t ->
  forall t1 c t2, t = t1 ++ c :: t2 ->
  forall r, In r (uses c) -> live (b ++ t1) r.
Proof.
  induction t as [|c0 t IH]; intros b Hs t1 c t2 Heq r Hr.
  - destruct t1; discriminate Heq.
  - destruct Hs as [Hc Hs]. destruct t1 as [|c1 t1]; cbn in Heq.
    + injection Heq as -> ->. rewrite app_nil_r. apply Hc, Hr.
    + injection Heq as -> ->.
      replace (b ++ c1 :: t1) with ((b ++ [c1]) ++ t1)
        by (rewrite <- app_assoc; reflexivity).
      apply (IH (b ++ [c1]) Hs t1 c t2 eq_refl r Hr).
Qed.

Lemma quiet_calls (dev surf : Handle) (n : nat) :
  quiet_using [SurfaceHandle surf] (findQueueFamilies_calls dev surf n).
Proof.
  unfold quiet_using, findQueueFamilies_calls. apply Forall_app. split.
  - constructor; [split; [split; reflexivity | intros r []]|].
    constructor; [split; [split; reflexivity | intros r []] | constructor].
  - apply Forall_forall. intros c Hc. apply in_map_iff in Hc.
    destruct Hc as [j [<- _]]. split; [split; reflexivity|].
    intros r Hr. exact Hr.
Qed.

Section Safety.

Variable drv : Driver.

Lemma pickPhysicalDevice_loop_quiet (devices : list Handle)
  (s : HelloTriangleApplication) :
  quiet_using [SurfaceHandle (surface s)]
    (calls (pickPhysicalDevice_loop drv devices s)).
Proof.
  induction devices as [|x rest IH]; cbn [pickPhysicalDevice_loop].
  - constructor.
  - unfold bind. rewrite isDeviceSuitable_run. cbn [out app calls].
    destruct (complete_selection drv s x); cbn [assign out app calls].
    + rewrite app_nil_r. apply quiet_calls.
    + apply Forall_app. split; [apply quiet_calls | exact IH].
Qed.

Lemma pickPhysicalDevice_quiet (s : HelloTriangleApplication) :
  quiet_using [InstanceHandle (instance s); SurfaceHandle (surface s)]
    (calls (pickPhysicalDevice drv s)).
Proof.
  destruct (physicalDevices drv (instance s)) as [|d ds] eqn:E.
  - unfold pickPhysicalDevice, bind, member, emit. cbn [out app calls].
    rewrite E. cbn. constructor; [|constructor].
    split; [split; reflexivity|]. intros r [<- | []]. left. reflexivity.
  - assert (Hne : physicalDevices drv (instance s) <> [])
      by (rewrite E; discriminate).
    rewrite (pickPhysicalDevice_unfold drv s Hne). cbn [calls].
    constructor; [|constructor].
    + split; [split; reflexivity|]. intros r [<- | []]. left. reflexivity.
    + split; [split; reflexivity|]. intros r [<- | []]. left. reflexivity.
    + apply quiet_using_incl with (H := [SurfaceHandle (surface s)]).
      * intros r [<- | []]. right. left. reflexivity.
      * apply pickPhysicalDevice_loop_quiet.
Qed.

Lemma mainLoop_from_quiet (fuel : nat) :
  forall (n : nat) (s : HelloTriangleApplication),
    quiet_using [WindowHandle (window s)] (calls (mainLoop_from drv fuel n s)).
Proof.
  induction fuel as [|fuel IH]; intros n s; cbn [mainLoop_from].
  - constructor.
  - unfold bind, member, emit. cbn [out app calls].
    destruct (windowShouldClose drv (window s) n); cbn [ret out app calls].
    + constructor; [|constructor].
      split; [split; reflexivity|]. intros r Hr. exact Hr.
    + cbn [List.app]. constructor; [|constructor].
      * split; [split; reflexivity|]. intros r Hr. exact Hr.
      * split; [split; reflexivity|]. intros r [].
      * apply IH.
Qed.

(** [initVulkan], started with the window live and nothing destroyed yet,
    gives its calls live handles only. *)
Lemma initVulkan_safe (s : HelloTriangleApplication) (b : list Call) :
  releases b = [] ->
  In (WindowHandle (window s)) (acquisitions b) ->
  safe_from b (calls (initVulkan drv s)).
Proof.
  intros Hrel Hwin. unfold initVulkan. cbv beta zeta delta [bind].
  rewrite createInstance_run. cbv zeta.
  destruct (createInstanceResult drv (requiredInstanceExtensions drv)) as [i|];
    cbn [out app calls].
  2: { cbn; repeat split; intros; contradiction. }
  rewrite createSurface_run. cbn [instance window set_instance].
  set (T1 := [glfwGetRequiredInstanceExtensions;
              vkCreateInstance (requiredInstanceExtensions drv) (Some i)]).
  assert (H1 : safe_from b T1) by (cbn; repeat split; intros; contradiction).
  assert (R1 : releases (b ++ T1) = [])
    by (rewrite releases_app, Hrel; reflexivity).
  assert (A1 : acquisitions (b ++ T1) = acquisitions b ++ [InstanceHandle i])
    by (rewrite acquisitions_app; reflexivity).
  assert (L1w : live (b ++ T1) (WindowHandle (window s)))
    by (apply live_of; [exact R1 | rewrite A1; apply in_or_app; auto]).
  assert (L1i : live (b ++ T1) (InstanceHandle i))
    by (apply live_of; [exact R1 | rewrite A1; apply in_or_app; cbn; auto]).
  destruct (createWindowSurfaceResult drv i (window s)) as [sf|];
    cbn [out app calls].
  2: { apply safe_from_app. split; [exact H1|]. cbn. split; [|exact I].
       intros r [<- | [<- | []]]; assumption. }
  set (T2 := [glfwCreateWindowSurface i (window s) (Some sf)]).
  assert (H2 : safe_from (b ++ T1) T2).
  { cbn. split; [|exact I]. intros r [<- | [<- | []]]; assumption. }
  assert (R2 : releases ((b ++ T1) ++ T2) = [])
    by (rewrite releases_app, R1; reflexivity).
  assert (A2 : acquisitions ((b ++ T1) ++ T2)
               = acquisitions b ++ [InstanceHandle i; SurfaceHandle sf]).
  { rewrite acquisitions_app, A1, <- app_assoc. reflexivity. }
  assert (L2i : live ((b ++ T1) ++ T2) (InstanceHandle i))
    by (apply live_of; [exact R2 | rewrite A2; apply in_or_app; cbn; auto]).
  assert (L2s : live ((b ++ T1) ++ T2) (SurfaceHandle sf))
    by (apply live_of; [exact R2 | rewrite A2; apply in_or_app; cbn; auto]).
  set (s2 := set_surface sf (set_instance i s)).
  pose proof (pickPhysicalDevice_quiet s2) as Q3.
  cbn [instance surface set_surface set_instance s2] in Q3.
  assert (H3 : safe_from ((b ++ T1) ++ T2) (calls (pickPhysicalDevice drv s2))).
  { apply (safe_from_quiet _ _ Q3).
    intros r [<- | [<- | []]]; assumption. }
  assert (Hfront : forall rest,
             safe_from (((b ++ T1) ++ T2) ++ calls (pickPhysicalDevice drv s2))
               rest ->
             safe_from b (T1 ++ T2 ++ calls (pickPhysicalDevice drv s2) ++ rest)).
  { intros rest Hrest.
    apply safe_from_app. split; [exact H1|].
    apply safe_from_app. split; [exact H2|].
    apply safe_from_app. split; [exact H3 | exact Hrest]. }
  destruct (pickPhysicalDevice_summary drv s2) as (_ & Hr & [pd Ha]).
  destruct (out (pickPhysicalDevice drv s2)) as [[]|e|] eqn:Eo;
    cbn [out app calls]; [| | contradiction].
  2: { rewrite <- (app_nil_r (calls (pickPhysicalDevice drv s2))).
       apply Hfront. exact I. }
  apply Hfront. rewrite Ha.
  set (b3 := ((b ++ T1) ++ T2) ++ calls (pickPhysicalDevice drv s2)).
  assert (L3s : live b3 (SurfaceHandle sf))
    by (apply live_neutral; [exact (quiet_using_neutral _ _ Q3) | exact L2s]).
  assert (R3 : releases b3 = []).
  { unfold b3. rewrite releases_app, R2.
    apply (collect_neutral_released _ (quiet_using_neutral _ _ Q3)). }
  rewrite createLogicalDevice_run. cbv zeta.
  cbn [physicalDevice surface set_physicalDevice s2 set_surface].
  set (queries := findQueueFamilies_calls pd sf _).
  assert (Q4 : quiet_using [SurfaceHandle sf] queries) by apply quiet_calls.
  assert (H4 : safe_from b3 queries).
  { apply (safe_from_quiet _ _ Q4). intros r [<- | []]. exact L3s. }
  destruct (createDeviceResult drv pd _) as [h|]; cbn [calls];
    apply safe_from_app; (split; [exact H4|]).
  - cbn. split; [intros r []|]. split; [|exact I].
    intros r [<- | []]. apply live_of.
    + rewrite !releases_app, R3.
      rewrite (collect_neutral_released _ (quiet_using_neutral _ _ Q4)).
      reflexivity.
    + rewrite !acquisitions_app. apply in_or_app. right. cbn. auto.
  - cbn. split; [intros r [] | exact I].
Qed.

End Safety.

Lemma main_calls (drv : Driver) (fuel : nat) (junk : HelloTriangleApplication) :
  api_calls (main drv fuel junk) = calls (run drv fuel (construct junk)).
Proof.
  unfold main. destruct (out (run drv fuel (construct junk))); reflexivity.
Qed.

Lemma no_acquisitions (t : list Call) :
  Forall (fun c => acquired_by c = None) t -> acquisitions t = [].
Proof.
  induction 1 as [|c t Hc _ IH]; cbn; [reflexivity|].
  rewrite Hc. exact IH.
Qed.

Lemma run_safe (drv : Driver) (fuel : nat) (s : HelloTriangleApplication) :
  safe_from [] (calls (run drv fuel s)).
Proof.
  unfold run. cbv beta zeta delta [bind].
  rewrite initWindow_run. cbn [out app calls].
  set (w := createWindow drv WIDTH HEIGHT "Vulkan").
  set (s1 := set_window w s).
  set (T0 := [glfwInit; glfwWindowHint GLFW_CLIENT_API_NO_API;
              glfwWindowHint GLFW_RESIZABLE_FALSE;
              glfwCreateWindow WIDTH HEIGHT "Vulkan" w]).
  assert (H0 : safe_from [] T0) by (cbn; repeat split; intros; contradiction).
  assert (Hv : safe_from ([] ++ T0) (calls (initVulkan drv s1)))
    by (apply initVulkan_safe; [reflexivity | left; reflexivity]).
  destruct (initVulkan_summary drv s1)
    as (Hrel & _ & [(i & sf & d & pd & q & Ho & Hacq & Hs) | (e & Ho)]);
    rewrite Ho; cbn [out app calls].
  2: { apply safe_from_app. split; [exact H0 | exact Hv]. }
  rewrite Hs. set (s4 := set_presentQueue q _).
  pose proof (mainLoop_from_quiet drv fuel O s4) as Q5.
  fold (mainLoop drv fuel) in Q5. cbn [window s4 set_presentQueue set_device
    set_physicalDevice set_surface set_instance s1 set_window] in Q5.
  set (b4 := ([] ++ T0) ++ calls (initVulkan drv s1)).
  assert (R4 : releases b4 = [])
    by (unfold b4; rewrite releases_app, Hrel; reflexivity).
  assert (A4 : acquisitions b4
               = [WindowHandle w; InstanceHandle i; SurfaceHandle sf;
                  DeviceHandle d])
    by (unfold b4; rewrite acquisitions_app, Hacq; reflexivity).
  assert (H5 : safe_from b4 (calls (mainLoop drv fuel s4))).
  { apply (safe_from_quiet _ _ Q5). intros r [<- | []].
    apply live_of; [exact R4 | rewrite A4; left; reflexivity]. }
  assert (Hfront : forall rest,
             safe_from (b4 ++ calls (mainLoop drv fuel s4)) rest ->
             safe_from []
               (T0 ++ calls (initVulkan drv s1)
                   ++ calls (mainLoop drv fuel s4) ++ rest)).
  { intros rest Hrest.
    apply safe_from_app. split; [exact H0|].
    apply safe_from_app. split; [exact Hv|].
    apply safe_from_app. split; [exact H5 | exact Hrest]. }
  destruct (mainLoop_from_summary drv fuel O s4) as (Ha & _ & Hout).
  fold (mainLoop drv fuel) in Ha, Hout.
  destruct Hout as [Hout | Hout]; rewrite Hout; cbn [out app calls].
  2: { rewrite <- (app_nil_r (calls (mainLoop drv fuel s4))).
       apply Hfront. exact I. }
  apply Hfront. rewrite Ha, cleanup_run. cbn [calls].
  cbn [device instance surface window s4 set_presentQueue set_device
       set_physicalDevice set_surface set_instance s1 set_window].
  set (b5 := b4 ++ calls (mainLoop drv fuel s4)).
  assert (R5 : releases b5 = []).
  { unfold b5. rewrite releases_app, R4.
    apply (collect_neutral_released _ (quiet_using_neutral _ _ Q5)). }
  assert (A5 : acquisitions b5
               = [WindowHandle w; InstanceHandle i; SurfaceHandle sf;
                  DeviceHandle d]).
  { unfold b5. rewrite acquisitions_app, A4.
    rewrite (collect_neutral_acquired _ (quiet_using_neutral _ _ Q5)).
    reflexivity. }
  assert (Hlive : forall rel r,
             In r [WindowHandle w; InstanceHandle i; SurfaceHandle sf;
                   DeviceHandle d] ->
             ~ In r (releases rel) ->
             Forall (fun c => acquired_by c = None) rel ->
             live (b5 ++ rel) r).
  { intros rel r Hin Hnot Hquiet. unfold live.
    rewrite acquisitions_app, releases_app, A5, R5.
    rewrite (no_acquisitions _ Hquiet), app_nil_r. split; assumption. }
  cbn [safe_from uses].
  split.
  { intros r [<- | []]. rewrite <- (app_nil_r b5).
    apply Hlive; [cbn; tauto | intros [] | constructor]. }
  split.
  { intros r [<- | [<- | []]]; apply Hlive;
      [cbn; tauto | cbn; intuition discriminate | repeat constructor
      |cbn; tauto | cbn; intuition discriminate | repeat constructor]. }
  split.
  { intros r [<- | []]. rewrite <- app_assoc. apply Hlive;
      [cbn; tauto | cbn; intuition discriminate | repeat constructor]. }
  split.
  { intros r [<- | []]. rewrite <- !app_assoc. apply Hlive;
      [cbn; tauto | cbn; intuition discriminate | repeat constructor]. }
  split; [intros r [] | exact I].
Qed.

(** X15.  In a run in which [glfwCreateWindow] returned a window (a
    non-null pointer; the program never tests it), whatever else the
    driver answers and whatever the indeterminate initial members hold,
    every call that is given a window, instance, surface or device is
    given one that was acquired earlier in the run and is not yet
    destroyed, and never the null window.  In particular nothing is
    destroyed twice and no uninitialised member reaches the API. *)
Theorem calls_use_live_handles (drv : Driver) (fuel : nat)
  (junk : HelloTriangleApplication) (t1 t2 : list Call) (c : Call)
  (r : Resource)
  (Hwin : createWindow drv WIDTH HEIGHT "Vulkan" <> VK_NULL_HANDLE)
  (Hsplit : api_calls (main drv fuel junk) = t1 ++ c :: t2)
  (Huse : In r (uses c)) :
  live t1 r /\ r <> WindowHandle VK_NULL_HANDLE.
Proof.
  rewrite main_calls in Hsplit.
  pose proof (safe_from_sound _ [] (run_safe drv fuel (construct junk))
                t1 c t2 Hsplit r Huse) as Hlive.
  split; [exact Hlive|].
  destruct Hlive as [Hin _]. cbn [List.app] in Hin.
  assert (Hall : In r (acquisitions (calls (run drv fuel (construct junk))))).
  { rewrite Hsplit, acquisitions_app. apply in_or_app. left. exact Hin. }
  destruct (run_acquisitions_prefix drv fuel (construct junk))
    as (i & sf & d & Hp).
  set (w := createWindow drv WIDTH HEIGHT "Vulkan") in *.
  intros ->.
  cbn [acquisition_prefixes In] in Hp.
  destruct Hp as [Hp | [Hp | [Hp | [Hp | []]]]]; rewrite <- Hp in Hall;
    cbn [In] in Hall;
    repeat match goal with
           | H : _ \/ _ |- _ => destruct H as [H | H]
           | H : False |- _ => contradiction
           | H : WindowHandle _ = WindowHandle _ |- _ =>
               injection H as H; apply Hwin; exact H
           | H : _ = WindowHandle _ |- _ => discriminate H
           end.
Qed.

Lemma calls_use_live_handles_witness :
  live (firstn 29 (api_calls (main drv_session 5 blank))) (DeviceHandle 44) /\
  DeviceHandle 44 <> WindowHandle VK_NULL_HANDLE.
Proof.
  apply (calls_use_live_handles drv_session 5 blank
           (firstn 29 (api_calls (main drv_session 5 blank)))
           (skipn 30 (api_calls (main drv_session 5 blank)))
           (vkDestroyDevice 44)).
  - discriminate.
  - vm_compute. reflexivity.
  - left. reflexivity.
Defined.

(** ** The window-only program *)

Section WindowOnlyFacts.

Variable drv : Driver.

Lemma window_only_run_unfold (fuel : nat) (s : HelloTriangleApplication) :
  let w := createWindow drv WIDTH HEIGHT "Vulkan" in
  let l := mainLoop drv fuel (set_window w s) in
  WindowOnly.run drv fuel s
  = mkResult (out l) (set_window w s)
      ([glfwInit; glfwWindowHint GLFW_CLIENT_API_NO_API;
        glfwWindowHint GLFW_RESIZABLE_FALSE;
        glfwCreateWindow WIDTH HEIGHT "Vulkan" w]
       ++ calls l
       ++ match out l with
          | Ret _ => [glfwDestroyWindow w; glfwTerminate]
          | _ => []
          end).
Proof.
  cbv zeta. unfold WindowOnly.run, WindowOnly.initVulkan, WindowOnly.cleanup.
  cbv beta zeta delta [bind]. rewrite initWindow_run.
  cbn [ret member emit out app calls List.app].
  set (w := createWindow drv WIDTH HEIGHT "Vulkan").
  destruct (mainLoop_from_summary drv fuel O (set_window w s))
    as (Ha & _ & Hout).
  fold (mainLoop drv fuel) in Ha, Hout.
  destruct Hout as [Hout | Hout]; rewrite Hout; cbn [out app calls];
    rewrite ?Ha; cbn [window set_window List.app]; rewrite ?app_nil_r;
    reflexivity.
Qed.

End WindowOnlyFacts.

(** X16.  The window-only program: if the window first asks to close at
    call [k], [main] exits with [EXIT_SUCCESS] (for any fuel above [k]),
    having made exactly the four window set-up calls, [k] rounds of
    test-then-poll and the final test, then [glfwDestroyWindow] on the
    created window and [glfwTerminate]. *)
Theorem window_only_session (drv : Driver) (junk : HelloTriangleApplication)
  (k fuel : nat)
  (Hopen : forall m, (m < k)%nat ->
     windowShouldClose drv (createWindow drv WIDTH HEIGHT "Vulkan") m = false)
  (Hclose :
     windowShouldClose drv (createWindow drv WIDTH HEIGHT "Vulkan") k = true)
  (Hfuel : (k < fuel)%nat) :
  WindowOnly.main drv fuel junk
  = mkProcess (Some EXIT_SUCCESS) []
      ([glfwInit; glfwWindowHint GLFW_CLIENT_API_NO_API;
        glfwWindowHint GLFW_RESIZABLE_FALSE;
        glfwCreateWindow WIDTH HEIGHT "Vulkan"
          (createWindow drv WIDTH HEIGHT "Vulkan")]
       ++ mainLoop_calls (createWindow drv WIDTH HEIGHT "Vulkan") k
       ++ [glfwDestroyWindow (createWindow drv WIDTH HEIGHT "Vulkan");
           glfwTerminate]).
Proof.
  unfold WindowOnly.main. rewrite window_only_run_unfold. cbv zeta.
  unfold mainLoop.
  rewrite (mainLoop_from_polls drv k O fuel
             (set_window (createWindow drv WIDTH HEIGHT "Vulkan") junk));
    [reflexivity | exact Hopen | exact Hclose | exact Hfuel].
Qed.

Lemma window_only_session_witness :
  WindowOnly.main drv_session 3 blank
  = mkProcess (Some EXIT_SUCCESS) []
      [glfwInit; glfwWindowHint GLFW_CLIENT_API_NO_API;
       glfwWindowHint GLFW_RESIZABLE_FALSE;
       glfwCreateWindow WIDTH HEIGHT "Vulkan" 11;
       glfwWindowShouldClose 11; glfwPollEvents;
       glfwWindowShouldClose 11; glfwPollEvents;
       glfwWindowShouldClose 11;
       glfwDestroyWindow 11; glfwTerminate].
Proof.
  apply (window_only_session drv_session blank 2 3).
  - intros m Hm. destruct m as [|[|m]]; [reflexivity | reflexivity | lia].
  - reflexivity.
  - lia.
Defined.

(** X17.  The window-only program has no failing path: for every driver
    and fuel [main] never exits with [EXIT_FAILURE] and writes nothing to
    [std::cerr]; when [glfwCreateWindow] returned a window (a non-null
    pointer) that window is its only acquisition, and it is destroyed
    exactly when [main] exits. *)
Theorem window_only_never_fails (drv : Driver) (fuel : nat)
  (junk : HelloTriangleApplication) :
  let p := WindowOnly.main drv fuel junk in
  let w := createWindow drv WIDTH HEIGHT "Vulkan" in
  exit_status p <> Some EXIT_FAILURE /\
  cerr p = [] /\
  (w <> VK_NULL_HANDLE ->
   acquisitions (api_calls p) = [WindowHandle w] /\
   (exit_status p = Some EXIT_SUCCESS /\
    releases (api_calls p) = [WindowHandle w]
    \/ exit_status p = None /\ releases (api_calls p) = [])).
Proof.
  cbv zeta. unfold WindowOnly.main. rewrite window_only_run_unfold. cbv zeta.
  set (w := createWindow drv WIDTH HEIGHT "Vulkan").
  destruct (mainLoop_from_summary drv fuel O (set_window w junk))
    as (_ & Hn & Hout).
  fold (mainLoop drv fuel) in Hn, Hout.
  pose proof (collect_neutral_acquired _ Hn) as Hacq.
  pose proof (collect_neutral_released _ Hn) as Hrel.
  destruct Hout as [Hout | Hout]; rewrite Hout; cbn [out calls exit_status
    cerr api_calls];
    rewrite !acquisitions_app, !releases_app, Hacq, Hrel;
    (split; [discriminate|]); (split; [reflexivity|]); intros _;
    (split; [reflexivity|]).
  - left. split; reflexivity.
  - right. split; reflexivity.
Qed.

Lemma window_only_never_fails_witness :
  acquisitions (api_calls (WindowOnly.main drv_session 3 blank))
  = [WindowHandle 11] /\
  (exit_status (WindowOnly.main drv_session 3 blank) = Some EXIT_SUCCESS /\
   releases (api_calls (WindowOnly.main drv_session 3 blank))
   = [WindowHandle 11]
   \/ exit_status (WindowOnly.main drv_session 3 blank) = None /\
      releases (api_calls (WindowOnly.main drv_session 3 blank)) = []).
Proof.
  destruct (window_only_never_fails drv_session 3 blank) as (_ & _ & H).
  apply H. discriminate.
Defined.

(** ** Selection and device creation agree *)





Section Agreement.

Variable drv : Driver.







End Agreement.


(** The session of [drv_session]: adapter 7 is passed over, the device is
    created on adapter 5 for the selection (1, 2). *)
Lemma device_created_for_selected_adapter_example :
  device_creations (api_calls (main drv_session 5 blank))
  = [(5, requests_for {| graphicsFamily := 1; presentFamily := 2 |})].
Proof. vm_compute. reflexivity. Qed.
